(** * vidya-ai-app: pagination and sectioning of AI-generated text

    A shallow embedding of the two text-processing functions of the
    client components,

    - [paginateContent] of [src/components/SubtopicDetailModal.tsx], with the
      page navigation handlers and the line classifier used for rendering;
    - [parseAnalysis] of [src/components/AnalysisModal.tsx],

    together with the JavaScript string primitives and regular expressions
    they are built from. *)

From Stdlib Require Import String Ascii.
From Stdlib Require Import List Bool Arith NArith ZArith Lia.
Import ListNotations.

Set Implicit Arguments.

(** ** JavaScript strings

    A JavaScript string is a sequence of UTF-16 code units.  A code unit is
    modelled as an [N]; the functions below only ever compare code units with
    constants, so values above [0xFFFF] behave like any other non-special
    code unit. *)

Module JS.

Definition char := N.
Definition jsstring := list char.

Definition NL : char := 10%N.

(** The code unit of an ASCII character. *)
Definition code (a : ascii) : char := N_of_ascii a.

(** String literals.  [lit] reads a Rocq string the way a JavaScript string
    literal is read, as far as the literals of this development need it:
    backslash followed by [n] is the line feed, backslash followed by [t] is
    the tab, every other character stands for its own code. *)
Fixpoint lit (s : string) : jsstring :=
  match s with
  | EmptyString => []
  | String c s' =>
      if (N_of_ascii c =? 92)%N then
        match s' with
        | String d s'' =>
            if (N_of_ascii d =? 110)%N then 10%N :: lit s''
            else if (N_of_ascii d =? 116)%N then 9%N :: lit s''
            else N_of_ascii c :: lit s'
        | EmptyString => [N_of_ascii c]
        end
      else N_of_ascii c :: lit s'
  end.

Fixpoint str_eqb (s t : jsstring) : bool :=
  match s, t with
  | [], [] => true
  | c :: s', d :: t' => (c =? d)%N && str_eqb s' t'
  | _, _ => false
  end.

(** ECMAScript [WhiteSpace] and [LineTerminator] code points; their union is
    what [String.prototype.trim] strips and what the regular expression
    class [\s] matches. *)
Definition isWhiteSpace (c : char) : bool :=
  ((c =? 0x9) || (c =? 0xB) || (c =? 0xC) || (c =? 0x20) || (c =? 0xA0)
   || (c =? 0x1680) || ((0x2000 <=? c) && (c <=? 0x200A))
   || (c =? 0x202F) || (c =? 0x205F) || (c =? 0x3000) || (c =? 0xFEFF))%N.

Definition isLineTerminator (c : char) : bool :=
  ((c =? 0xA) || (c =? 0xD) || (c =? 0x2028) || (c =? 0x2029))%N.

Definition isSpace (c : char) : bool := isWhiteSpace c || isLineTerminator c.

Definition isDigit (c : char) : bool := ((48 <=? c) && (c <=? 57))%N.

(** [s.split(sep)] for a separator of one code unit (every call in the
    source splits at the line feed).  The result is never empty: the empty
    string splits into one empty piece. *)
Fixpoint split (sep : char) (s : jsstring) : list jsstring :=
  match s with
  | [] => [[]]
  | c :: s' =>
      if (c =? sep)%N then [] :: split sep s'
      else match split sep s' with
           | piece :: rest => (c :: piece) :: rest
           | [] => [[c]]
           end
  end.

(** [pieces.join(sep)]. *)
Fixpoint join (sep : jsstring) (pieces : list jsstring) : jsstring :=
  match pieces with
  | [] => []
  | p :: rest =>
      match rest with
      | [] => p
      | _ :: _ => p ++ sep ++ join sep rest
      end
  end.

Fixpoint trimStart (s : jsstring) : jsstring :=
  match s with
  | [] => []
  | c :: s' => if isSpace c then trimStart s' else s
  end.

Definition trimEnd (s : jsstring) : jsstring := rev (trimStart (rev s)).

(** [s.trim()]. *)
Definition trim (s : jsstring) : jsstring := trimEnd (trimStart s).

(** [s.replace(c, "")] for a pattern that is a one-code-unit string: only
    the first occurrence is removed. *)
Fixpoint removeFirst (c : char) (s : jsstring) : jsstring :=
  match s with
  | [] => []
  | d :: s' => if (d =? c)%N then s' else d :: removeFirst c s'
  end.

(** The callback [(line) => line.trim() !== ""] that both components give
    to [filter]. *)
Definition nonBlank (line : jsstring) : bool := negb (str_eqb (trim line) []).

(** [arr.forEach((x, index) => ...)] where the callback updates the
    variables captured from the enclosing scope, gathered in a state [S]. *)
Fixpoint forEachFrom {A S : Type} (f : S -> A -> nat -> S)
    (index : nat) (arr : list A) (st : S) : S :=
  match arr with
  | [] => st
  | x :: rest => forEachFrom f (Datatypes.S index) rest (f st x index)
  end.

Definition forEach {A S : Type} (f : S -> A -> nat -> S) (arr : list A) (st : S) : S :=
  forEachFrom f 0 arr st.

(** [arr.slice(start, end)] for integer arguments: a negative argument
    counts from the end of the array, both are clamped to the array. *)
Definition slice {A : Type} (start stop : Z) (arr : list A) : list A :=
  let len := Z.of_nat (length arr) in
  let k := if (start <? 0)%Z then Z.max (len + start) 0 else Z.min start len in
  let final := if (stop <? 0)%Z then Z.max (len + stop) 0 else Z.min stop len in
  firstn (Z.to_nat (final - k)) (skipn (Z.to_nat k) arr).

(** [s.substring(start, end)] for integer arguments: both are clamped to
    the string and swapped when they come in the wrong order. *)
Definition substring (start stop : Z) (s : jsstring) : jsstring :=
  let len := Z.of_nat (length s) in
  let finalStart := Z.min (Z.max start 0) len in
  let finalEnd := Z.min (Z.max stop 0) len in
  let from := Z.min finalStart finalEnd in
  let to := Z.max finalStart finalEnd in
  firstn (Z.to_nat (to - from)) (skipn (Z.to_nat from) s).

(** [Math.ceil(n / k)] for an array length [n] and a positive integer [k].
    The quotient of the source is a double; for a length (below [2^32]) it
    is within [2^-21] of the exact quotient, which is an integer or at least
    [1/k] away from one, so its ceiling is the exact one. *)
Definition ceilDiv (n k : Z) : Z := ((n + k - 1) / k)%Z.

End JS.

(** ** Regular expressions

    The patterns of the source use literals, classes, grouping, alternation,
    [*], [+], [?] and the anchors [^] and [$] (without the [m] flag: start
    and end of the whole string).  Whether such a pattern matches is a
    question about the regular language it denotes, which Brzozowski
    derivatives decide. *)

Module Regex.
Import JS.

Inductive regex : Type :=
| Void : regex
| Eps : regex
| Class : (char -> bool) -> regex
| Seq : regex -> regex -> regex
| Alt : regex -> regex -> regex
| Star : regex -> regex.

(** The words of a regular expression. *)
Inductive Matches : regex -> jsstring -> Prop :=
| MEps : Matches Eps []
| MClass : forall (p : char -> bool) c, p c = true -> Matches (Class p) [c]
| MSeq : forall r1 r2 s1 s2,
    Matches r1 s1 -> Matches r2 s2 -> Matches (Seq r1 r2) (s1 ++ s2)
| MAltL : forall r1 r2 s, Matches r1 s -> Matches (Alt r1 r2) s
| MAltR : forall r1 r2 s, Matches r2 s -> Matches (Alt r1 r2) s
| MStarNil : forall r, Matches (Star r) []
| MStarCons : forall r s1 s2,
    Matches r s1 -> Matches (Star r) s2 -> Matches (Star r) (s1 ++ s2).

Fixpoint nullable (r : regex) : bool :=
  match r with
  | Void => false
  | Eps => true
  | Class _ => false
  | Seq r1 r2 => nullable r1 && nullable r2
  | Alt r1 r2 => nullable r1 || nullable r2
  | Star _ => true
  end.

(** Constructors that do not build on [Void]: they keep derivatives small. *)
Definition seq' (r1 r2 : regex) : regex :=
  match r1, r2 with
  | Void, _ => Void
  | _, Void => Void
  | Eps, _ => r2
  | _, _ => Seq r1 r2
  end.

Definition alt' (r1 r2 : regex) : regex :=
  match r1, r2 with
  | Void, _ => r2
  | _, Void => r1
  | _, _ => Alt r1 r2
  end.

Fixpoint deriv (c : char) (r : regex) : regex :=
  match r with
  | Void => Void
  | Eps => Void
  | Class p => if p c then Eps else Void
  | Seq r1 r2 =>
      alt' (seq' (deriv c r1) r2) (if nullable r1 then deriv c r2 else Void)
  | Alt r1 r2 => alt' (deriv c r1) (deriv c r2)
  | Star r1 => seq' (deriv c r1) (Star r1)
  end.

(** [/^r$/]: the whole string is a word of [r]. *)
Fixpoint matchWhole (r : regex) (s : jsstring) : bool :=
  match s with
  | [] => nullable r
  | c :: s' => matchWhole (deriv c r) s'
  end.

(** [/^r/]: some prefix of the string is a word of [r]. *)
Fixpoint matchPrefix (r : regex) (s : jsstring) : bool :=
  nullable r ||
  match s with
  | [] => false
  | c :: s' => matchPrefix (deriv c r) s'
  end.

(** Pattern syntax. *)
Definition chr (c : char) : regex := Class (fun x => (x =? c)%N).
Definition notChr (c : char) : regex := Class (fun x => negb (x =? c)%N).
Definition plus (r : regex) : regex := Seq r (Star r).
Definition opt (r : regex) : regex := Alt r Eps.

(** [\s], [\d] and [.] (no [s] flag: every code unit but a line terminator). *)
Definition ws : regex := Class isSpace.
Definition digit : regex := Class isDigit.
Definition dot : regex := Class (fun x => negb (isLineTerminator x)).

(** Case folding of the [i] flag (without [u]): [Canonicalize] maps a code
    unit to its upper case, and never maps a code unit from 128 upwards to
    one below 128.  Against the ASCII characters of a pattern this is the
    ASCII upper case: a code unit from 128 upwards stays there. *)
Definition canonicalize (c : char) : char :=
  if ((97 <=? c) && (c <=? 122))%N then (c - 32)%N else c.

Definition chrI (c : char) : regex :=
  Class (fun x => (canonicalize x =? canonicalize c)%N).

(** A literal word of a pattern under the [i] flag. *)
Fixpoint wordI (w : jsstring) : regex :=
  match w with
  | [] => Eps
  | c :: w' => Seq (chrI c) (wordI w')
  end.

End Regex.

(** ** [src/components/SubtopicDetailModal.tsx] *)

Module SubtopicDetailModal.
Import JS Regex.

Definition LINES_PER_PAGE : nat := 15.
Definition MIN_LINES_PER_PAGE : nat := 10.

(** [/^(#+)\s*(.+)$/] *)
Definition hashHeading : regex :=
  Seq (plus (chr (code "#"))) (Seq (Star ws) (plus dot)).

(** [/^(\s*[-*]|\s*\d+\.)\s*(.+)$/] *)
Definition listMarker : regex :=
  Seq (Alt (Seq (Star ws) (Class (fun x => (x =? code "-") || (x =? code "*"))%N))
           (Seq (Star ws) (Seq (plus digit) (chr (code ".")))))
      (Seq (Star ws) (plus dot)).

(** [/^\*\*([^*]+)\*\*:/] (no [$]: only a prefix has to match) *)
Definition boldColon : regex :=
  Seq (chr (code "*")) (Seq (chr (code "*")) (Seq (plus (notChr (code "*")))
    (Seq (chr (code "*")) (Seq (chr (code "*")) (chr (code ":")))))).

(** [/^\*\*([^*]+)\*\*$/] *)
Definition boldLine : regex :=
  Seq (chr (code "*")) (Seq (chr (code "*")) (Seq (plus (notChr (code "*")))
    (Seq (chr (code "*")) (chr (code "*"))))).

(** The test of the pagination loop: the truthiness of
    [line.match(..) || line.match(..) || line.match(..)]. *)
Definition isHeading (line : jsstring) : bool :=
  matchWhole hashHeading line
  || matchWhole listMarker line
  || matchPrefix boldColon line.

(** The variables the loop of [paginateContent] updates. *)
Record pager : Type := Pager {
  pages : list jsstring;
  currentPageLines : list jsstring
}.

(** [pages.push(currentPageLines.join("\n")); currentPageLines = [];] *)
Definition flush (st : pager) : pager :=
  Pager (pages st ++ [join [NL] (currentPageLines st)]) [].

(** The first [if] of the loop body. *)
Definition preAppend (st : pager) (line : jsstring) : pager :=
  if isHeading line
     && (MIN_LINES_PER_PAGE <=? length (currentPageLines st))
     && (length (currentPageLines st) <=? LINES_PER_PAGE)
  then flush st
  else st.

(** [currentPageLines.push(line);] *)
Definition append (st : pager) (line : jsstring) : pager :=
  Pager (pages st) (currentPageLines st ++ [line]).

(** The second [if] of the loop body; [len] is [lines.length]. *)
Definition postAppend (len : nat) (st : pager) (index : nat) : pager :=
  if (LINES_PER_PAGE <=? length (currentPageLines st))
     || (Z.of_nat index =? Z.of_nat len - 1)%Z
  then flush st
  else st.

(** The callback of [lines.forEach]. *)
Definition pagerBody (len : nat) (st : pager) (line : jsstring) (index : nat) : pager :=
  postAppend len (append (preAppend st line) line) index.

(** [content.split("\n").filter((line) => line.trim() !== "")] *)
Definition contentLines (content : jsstring) : list jsstring :=
  filter nonBlank (split NL content).

(** The loop on an array of lines, then the closing [if]. *)
Definition paginateLines (lines : list jsstring) : list jsstring :=
  let st := forEach (pagerBody (length lines)) lines (Pager [] []) in
  let st := if 0 <? length (currentPageLines st) then flush st else st in
  pages st.

Definition paginateContent (content : jsstring) : list jsstring :=
  paginateLines (contentLines content).

(** The lines shown for a page: [currentContent.split("\n")]. *)
Definition pageLines (page : jsstring) : list jsstring := split NL page.

Definition lineCount (page : jsstring) : nat := length (pageLines page).

(** Page navigation: the updater functions given to [setCurrentPageInModal]. *)
Definition handleNextPage (totalPages prev : Z) : Z := Z.min (prev + 1) totalPages.
Definition handlePreviousPage (prev : Z) : Z := Z.max (prev - 1) 1.

(** The classifier of the rendering loop: [isBold] is tested first, then
    [isBullet]; any other line is an ordinary paragraph. *)
Inductive lineClass : Type := BoldEmphasis | BulletOrNumbered | Plain.

Definition isBold (line : jsstring) : bool := matchWhole boldLine line.
Definition isBullet (line : jsstring) : bool := matchWhole listMarker line.

Definition renderClass (line : jsstring) : lineClass :=
  if isBold line then BoldEmphasis
  else if isBullet line then BulletOrNumbered
  else Plain.

(** Cutting a list into consecutive runs of [m] elements, the last run
    holding what remains; [fuel] bounds the number of runs. *)
Fixpoint chunksFuel {A : Type} (fuel m : nat) (l : list A) : list (list A) :=
  match fuel with
  | O => []
  | S fuel' =>
      match l with
      | [] => []
      | _ :: _ => firstn m l :: chunksFuel fuel' m (skipn m l)
      end
  end.

Definition chunks {A : Type} (m : nat) (l : list A) : list (list A) :=
  chunksFuel (length l) m l.

(** Sample inputs. *)
Definition tenPlainLines : list jsstring := repeat (lit "plain text") 10.
Definition bulletLine : jsstring := lit "- item".
Definition plain25 : jsstring := join [NL] (repeat (lit "plain text") 25).
Definition importantLine : jsstring := lit "**Important**:".

(** The page sizes of [n] lines cut every [LINES_PER_PAGE] lines: full
    pages, then the remainder if there is one. *)
Definition pageSizes (n : nat) : list nat :=
  repeat LINES_PER_PAGE (n / LINES_PER_PAGE)
  ++ (if n mod LINES_PER_PAGE =? 0 then [] else [n mod LINES_PER_PAGE]).

(** The loop invariant: after the lines [done], none of them the last of the
    array, the pages pushed so far are the joined [groups], which together
    with the open buffer make up [done]; the buffer is not full; every
    closed group has between [MIN_LINES_PER_PAGE] and [LINES_PER_PAGE]
    lines, and exactly [LINES_PER_PAGE] when no line so far is a heading. *)
Definition Inv (done : list jsstring) (st : pager)
    (groups : list (list jsstring)) : Prop :=
  pages st = map (join [NL]) groups
  /\ concat groups ++ currentPageLines st = done
  /\ length (currentPageLines st) < LINES_PER_PAGE
  /\ Forall (fun g => MIN_LINES_PER_PAGE <= length g <= LINES_PER_PAGE) groups
  /\ (Forall (fun l => isHeading l = false) done ->
      Forall (fun g => length g = LINES_PER_PAGE) groups).

(** What holds when the loop has run over all of [lines] (not empty): the
    buffer is empty again and the pages are the joined groups
    [front ++ [final]]. *)
Definition Final (lines : list jsstring) (st : pager)
    (front : list (list jsstring)) (final : list jsstring) : Prop :=
  currentPageLines st = []
  /\ pages st = map (join [NL]) (front ++ [final])
  /\ concat (front ++ [final]) = lines
  /\ Forall (fun g => MIN_LINES_PER_PAGE <= length g <= LINES_PER_PAGE) front
  /\ 1 <= length final <= LINES_PER_PAGE
  /\ (Forall (fun l => isHeading l = false) lines ->
      Forall (fun g => length g = LINES_PER_PAGE) front).

(** [contentPages[currentPageInModal - 1] || ""]: an index outside of the
    array gives [undefined], which [||] replaces by the empty string. *)
Definition currentContent (contentPages : list jsstring)
    (currentPageInModal : Z) : jsstring :=
  if (currentPageInModal - 1 <? 0)%Z then []
  else nth (Z.to_nat (currentPageInModal - 1)) contentPages [].

(** The state of the modal, set by the effect that runs when
    [researchedContent] changes (a string is truthy when it is not empty). *)
Record modal : Type := Modal {
  contentPages : list jsstring;
  currentPageInModal : Z
}.

Definition onContentChange (researchedContent : jsstring) : modal :=
  match researchedContent with
  | _ :: _ => Modal (paginateContent researchedContent) 1
  | [] => Modal [] 1
  end.

(** The two buttons of the pagination controls.  The controls are rendered
    when [totalPages > 1]; Previous is disabled on page 1, Next on the last
    page; a button that is not rendered or is disabled does nothing. *)
Inductive click : Type := ClickPrevious | ClickNext.

Definition onClick (m : modal) (c : click) : modal :=
  let totalPages := Z.of_nat (length (contentPages m)) in
  if (1 <? totalPages)%Z then
    match c with
    | ClickPrevious =>
        if (currentPageInModal m =? 1)%Z then m
        else Modal (contentPages m) (handlePreviousPage (currentPageInModal m))
    | ClickNext =>
        if (currentPageInModal m =? totalPages)%Z then m
        else Modal (contentPages m) (handleNextPage totalPages (currentPageInModal m))
    end
  else m.

(** A page may follow another when the first is full or the second starts
    with a line that passes the heading test. *)
Definition breakAllowed (g1 g2 : list jsstring) : Prop :=
  length g1 = LINES_PER_PAGE
  \/ match g2 with
     | h :: _ => isHeading h = true
     | [] => False
     end.

Fixpoint breaksAllowed (groups : list (list jsstring)) : Prop :=
  match groups with
  | g1 :: rest =>
      match rest with
      | g2 :: _ => breakAllowed g1 g2 /\ breaksAllowed rest
      | [] => True
      end
  | [] => True
  end.

(** No line after the first [MIN_LINES_PER_PAGE] lines of the group passes
    the heading test. *)
Definition noLateHeading (g : list jsstring) : Prop :=
  Forall (fun l => isHeading l = false) (skipn MIN_LINES_PER_PAGE g).

(** A second loop invariant, on where the groups are cut. *)
Definition InvBreaks (done : list jsstring) (st : pager)
    (groups : list (list jsstring)) : Prop :=
  pages st = map (join [NL]) groups
  /\ concat groups ++ currentPageLines st = done
  /\ length (currentPageLines st) < LINES_PER_PAGE
  /\ Forall (fun g => 1 <= length g) groups
  /\ breaksAllowed (groups ++ [currentPageLines st])
  /\ Forall noLateHeading groups
  /\ noLateHeading (currentPageLines st).

End SubtopicDetailModal.

(** ** [src/components/AnalysisModal.tsx] *)

Module AnalysisModal.
Import JS Regex.

Record section : Type := Section_ {
  title : jsstring;
  content : list jsstring
}.

(** [/^(summary|key topics|questions|overview):?\s*$/i] *)
Definition keywordHeading : regex :=
  Seq (Alt (wordI (lit "summary"))
        (Alt (wordI (lit "key topics"))
          (Alt (wordI (lit "questions")) (wordI (lit "overview")))))
      (Seq (opt (chr (code ":"))) (Star ws)).

(** [/^\d+\.\s/i] *)
Definition numberedStart : regex := Seq (plus digit) (Seq (chr (code ".")) ws).

(** [/^- \s/i] *)
Definition bulletStart : regex := Seq (chr (code "-")) (Seq (chr (code " ")) ws).

(** The test of the loop of [parseAnalysis]. *)
Definition isTrigger (line : jsstring) : bool :=
  matchWhole keywordHeading line
  || matchPrefix numberedStart line
  || matchPrefix bulletStart line.

(** The variables the loop updates; [None] is [null]. *)
Record parser : Type := Parser {
  sections : list section;
  currentSectionTitle : option jsstring;
  currentSectionContent : list jsstring
}.

(** [line.replace(":", "").trim()] *)
Definition titleOf (line : jsstring) : jsstring := trim (removeFirst (code ":") line).

(** The callback of [lines.forEach]. *)
Definition parserBody (st : parser) (line : jsstring) (index : nat) : parser :=
  if isTrigger line then
    let sections' :=
      match currentSectionTitle st with
      | Some t => sections st ++ [Section_ t (currentSectionContent st)]
      | None => sections st
      end in
    Parser sections' (Some (titleOf line)) []
  else
    Parser (sections st) (currentSectionTitle st) (currentSectionContent st ++ [line]).

Definition parseLines (lines : list jsstring) : list section :=
  let st := forEach parserBody lines (Parser [] None []) in
  match currentSectionTitle st with
  | Some t => sections st ++ [Section_ t (currentSectionContent st)]
  | None =>
      if 0 <? length lines
      then sections st ++ [Section_ (lit "Analysis") lines]
      else sections st
  end.

(** [text.split("\n").filter((line) => line.trim() !== "")] *)
Definition textLines (text : jsstring) : list jsstring :=
  filter nonBlank (split NL text).

Definition parseAnalysis (text : jsstring) : list section :=
  parseLines (textLines text).

(** The keywords of the first pattern. *)
Definition keywords : list jsstring :=
  [lit "summary"; lit "key topics"; lit "questions"; lit "overview"].

(** [w] is one of the keywords, in any mix of upper and lower case. *)
Definition isKeyword (w : jsstring) : Prop :=
  In (map canonicalize w) (map (map canonicalize) keywords).

(** What the closing [if] pushes when a section is open. *)
Definition close (st : parser) : list section :=
  match currentSectionTitle st with
  | Some t => sections st ++ [Section_ t (currentSectionContent st)]
  | None => sections st
  end.

(** Sample inputs. *)
Definition introTopic : jsstring :=
  lit "## Intro\nLine1\nLine2\n## Topic A\nLine3".
Definition preamble : jsstring := lit "Preamble\nSummary:\nLine1".
Definition blankText : jsstring := lit "  \n\t\n".

End AnalysisModal.

(** ** [src/app/learn/[documentId]/page.tsx] and the quiz history modal *)

Module LearningPage.
Import JS.

(** The page sizes of the lists of the learning page and of the quiz
    history modal. *)
Definition itemsPerPageSubtopics : Z := 10.
Definition itemsPerPageQuiz : Z := 10.
Definition itemsPerPageQnA : Z := 5.
Definition itemsPerPage : Z := 5.

(** [Math.ceil(items.length / itemsPerPage)] *)
Definition totalPages {A : Type} (perPage : Z) (items : list A) : Z :=
  ceilDiv (Z.of_nat (length items)) perPage.

(** [items.slice(indexOfFirst, indexOfLast)] with
    [indexOfLast = currentPage * itemsPerPage] and
    [indexOfFirst = indexOfLast - itemsPerPage]. *)
Definition currentItems {A : Type} (perPage currentPage : Z) (items : list A)
    : list A :=
  let indexOfLast := (currentPage * perPage)%Z in
  let indexOfFirst := (indexOfLast - perPage)%Z in
  slice indexOfFirst indexOfLast items.

(** The page numbers of the buttons: [index + 1] for every index of
    [[...Array(totalPages)]]. *)
Definition pageNumbers (total : Z) : list Z :=
  map (fun index => (Z.of_nat index + 1)%Z) (seq 0 (Z.to_nat total)).

End LearningPage.

(** ** The API routes: the text handed to the model *)

Module Routes.
Import JS.

Definition maxTextLength : Z := 10000.

(** The truncation of the document text, the same in every route up to the
    notice appended to the text. *)
Definition truncate (notice : jsstring) (documentTextContent : jsstring)
    : jsstring :=
  if (maxTextLength <? Z.of_nat (length documentTextContent))%Z
  then substring 0 maxTextLength documentTextContent ++ notice
  else documentTextContent.

(** [fileName.split(".").slice(0, -1).join(".") || "Document Content"] of
    the subtopic extraction prompt. *)
Definition mainTopic (fileName : jsstring) : jsstring :=
  match join [code "."] (slice 0 (-1) (split (code ".") fileName)) with
  | [] => lit "Document Content"
  | c :: name => c :: name
  end.

End Routes.

(** ** [src/components/FeatureCarousel.tsx] *)

Module FeatureCarousel.
Import JS.

Definition cardsPerPage : nat := 3.



(** [features[k]] for an integer [k]: [None] is [undefined]. *)
Definition at_ {A : Type} (features : list A) (k : Z) : option A :=
  if (k <? 0)%Z then None else nth_error features (Z.to_nat k).

(** [getDisplayedFeatures]: the loop pushes
    [features[(currentIndex + i) % totalFeatures]] for [i] from 0 to
    [cardsPerPage - 1].  The remainder of JavaScript has the sign of the
    dividend. *)
Definition getDisplayedFeatures {A : Type} (features : list A)
    (currentIndex : Z) : list (option A) :=
  let totalFeatures := Z.of_nat (length features) in
  map (fun i => at_ features (Z.rem (currentIndex + Z.of_nat i) totalFeatures))
      (seq 0 cardsPerPage).

End FeatureCarousel.

(** * Properties *)

(** ** Strings *)

Module JSFacts.
Import JS.

Lemma str_eqb_eq (s t : jsstring) : str_eqb s t = true <-> s = t.
Proof.
  revert t; induction s as [|c s IH]; intros [|d t]; simpl; try easy.
  rewrite andb_true_iff, N.eqb_eq, IH. split.
  - intros [-> ->]; reflexivity.
  - intros [= -> ->]; auto.
Qed.

Lemma split_not_nil (sep : char) (s : jsstring) : split sep s <> [].
Proof.
  induction s as [|c s IH]; simpl; [discriminate|].
  destruct (c =? sep)%N; [discriminate|].
  destruct (split sep s); discriminate.
Qed.

(** No piece of a split contains the separator. *)
Lemma split_pieces (sep : char) (s : jsstring) :
  Forall (fun piece => ~ In sep piece) (split sep s).
Proof.
  induction s as [|c s IH]; simpl.
  - constructor; auto.
  - destruct (c =? sep)%N eqn:E.
    + constructor; auto.
    + destruct (split sep s) as [|piece rest]; inversion IH; subst;
        constructor; auto; simpl; intros [H | H]; auto;
        subst; rewrite N.eqb_refl in E; discriminate.
Qed.

Lemma split_single (sep : char) (p : jsstring) :
  ~ In sep p -> split sep p = [p].
Proof.
  induction p as [|c p IH]; simpl; intros H; [reflexivity|].
  destruct (c =? sep)%N eqn:E.
  - apply N.eqb_eq in E; subst; tauto.
  - rewrite IH by tauto; reflexivity.
Qed.

Lemma split_app_sep (sep : char) (p s : jsstring) :
  ~ In sep p -> split sep (p ++ sep :: s) = p :: split sep s.
Proof.
  induction p as [|c p IH]; simpl; intros H.
  - rewrite N.eqb_refl; reflexivity.
  - destruct (c =? sep)%N eqn:E.
    + apply N.eqb_eq in E; subst; tauto.
    + rewrite IH by tauto; reflexivity.
Qed.

(** Splitting a joined array gives the array back, provided it is not empty
    and no element contains the separator. *)
Lemma split_join (sep : char) (pieces : list jsstring) :
  pieces <> [] ->
  Forall (fun piece => ~ In sep piece) pieces ->
  split sep (join [sep] pieces) = pieces.
Proof.
  induction pieces as [|p rest IH]; intros Hne Hall; [congruence|].
  inversion Hall as [|? ? Hp Hrest]; subst.
  destruct rest as [|q rest].
  - simpl; apply split_single; assumption.
  - change (join [sep] (p :: q :: rest)) with (p ++ sep :: join [sep] (q :: rest)).
    rewrite split_app_sep by assumption.
    rewrite IH; [reflexivity | discriminate | assumption].
Qed.

Lemma forEachFrom_app {A S : Type} (f : S -> A -> nat -> S) (l1 l2 : list A) :
  forall index st,
    forEachFrom f index (l1 ++ l2) st =
    forEachFrom f (index + length l1) l2 (forEachFrom f index l1 st).
Proof.
  induction l1 as [|x l1 IH]; intros index st; simpl.
  - rewrite Nat.add_0_r; reflexivity.
  - rewrite IH; f_equal; lia.
Qed.

End JSFacts.

(** ** The matcher decides membership *)

Module RegexFacts.
Import JS Regex.

Lemma Matches_Void (s : jsstring) : ~ Matches Void s.
Proof. inversion 1. Qed.

Lemma Matches_Eps_inv (s : jsstring) : Matches Eps s -> s = [].
Proof. inversion 1; reflexivity. Qed.

Lemma Matches_Class_inv (p : char -> bool) (s : jsstring) :
  Matches (Class p) s -> exists c, s = [c] /\ p c = true.
Proof. inversion 1; subst; eauto. Qed.

Lemma Matches_Seq_inv (r1 r2 : regex) (s : jsstring) :
  Matches (Seq r1 r2) s ->
  exists s1 s2, s = s1 ++ s2 /\ Matches r1 s1 /\ Matches r2 s2.
Proof. inversion 1; subst; eauto. Qed.

Lemma Matches_Alt_inv (r1 r2 : regex) (s : jsstring) :
  Matches (Alt r1 r2) s -> Matches r1 s \/ Matches r2 s.
Proof. inversion 1; subst; auto. Qed.

Lemma nullable_spec (r : regex) : nullable r = true <-> Matches r [].
Proof.
  induction r as [| |p|r1 IH1 r2 IH2|r1 IH1 r2 IH2|r IH]; simpl.
  - split; [discriminate | inversion 1].
  - split; [constructor | reflexivity].
  - split; [discriminate | inversion 1].
  - rewrite andb_true_iff, IH1, IH2; split.
    + intros [H1 H2]; apply (MSeq H1 H2).
    + intros H. apply Matches_Seq_inv in H as (s1 & s2 & E & H1 & H2).
      symmetry in E; apply app_eq_nil in E as [-> ->]; auto.
  - rewrite orb_true_iff, IH1, IH2; split.
    + intros [H | H]; [apply MAltL | apply MAltR]; assumption.
    + apply Matches_Alt_inv.
  - split; [constructor | reflexivity].
Qed.

Lemma seq'_spec (r1 r2 : regex) (s : jsstring) :
  Matches (seq' r1 r2) s <-> Matches (Seq r1 r2) s.
Proof.
  assert (V1 : forall r, Matches Void s <-> Matches (Seq Void r) s).
  { intros r; split; [inversion 1|].
    intros H; apply Matches_Seq_inv in H as (s1 & s2 & _ & H1 & _).
    inversion H1. }
  assert (V2 : forall r, Matches Void s <-> Matches (Seq r Void) s).
  { intros r; split; [inversion 1|].
    intros H; apply Matches_Seq_inv in H as (s1 & s2 & _ & _ & H2).
    inversion H2. }
  assert (E1 : forall r, Matches r s <-> Matches (Seq Eps r) s).
  { intros r; split.
    - intros H; apply (MSeq MEps H).
    - intros H; apply Matches_Seq_inv in H as (s1 & s2 & -> & H1 & H2).
      apply Matches_Eps_inv in H1; subst; assumption. }
  destruct r1, r2; simpl; auto; reflexivity.
Qed.

Lemma alt'_spec (r1 r2 : regex) (s : jsstring) :
  Matches (alt' r1 r2) s <-> Matches (Alt r1 r2) s.
Proof.
  assert (V1 : forall r, Matches r s <-> Matches (Alt Void r) s).
  { intros r; split; [apply MAltR|].
    intros H; apply Matches_Alt_inv in H as [H | H]; [inversion H | assumption]. }
  assert (V2 : forall r, Matches r s <-> Matches (Alt r Void) s).
  { intros r; split; [apply MAltL|].
    intros H; apply Matches_Alt_inv in H as [H | H]; [assumption | inversion H]. }
  destruct r1, r2; simpl; auto; reflexivity.
Qed.

(** A non-empty word of [Star r] starts with a non-empty word of [r]. *)
Lemma Matches_Star_cons (r : regex) (c : char) (s : jsstring) :
  Matches (Star r) (c :: s) ->
  exists s1 s2, s = s1 ++ s2 /\ Matches r (c :: s1) /\ Matches (Star r) s2.
Proof.
  intros H. remember (Star r) as r' eqn:Er. remember (c :: s) as w eqn:Ew.
  induction H as [| | | | | |r0 s1 s2 H1 _ H2 IH2]; try discriminate.
  injection Er as ->.
  destruct s1 as [|d s1]; simpl in Ew.
  - apply IH2; auto.
  - injection Ew as -> <-. exists s1, s2; auto.
Qed.

Lemma deriv_spec (r : regex) : forall (c : char) (s : jsstring),
  Matches (deriv c r) s <-> Matches r (c :: s).
Proof.
  induction r as [| |p|r1 IH1 r2 IH2|r1 IH1 r2 IH2|r IH]; intros c s; simpl.
  - split; inversion 1.
  - split; inversion 1.
  - destruct (p c) eqn:E; split; intros H.
    + apply Matches_Eps_inv in H; subst; constructor; assumption.
    + apply Matches_Class_inv in H as (d & [= -> ->] & _); constructor.
    + inversion H.
    + apply Matches_Class_inv in H as (d & [= -> ->] & H); congruence.
  - rewrite alt'_spec; split; intros H.
    + apply Matches_Alt_inv in H as [H | H].
      * apply seq'_spec, Matches_Seq_inv in H as (s1 & s2 & -> & H1 & H2).
        apply IH1 in H1. apply (MSeq H1 H2).
      * destruct (nullable r1) eqn:E; [|inversion H].
        apply nullable_spec in E. apply IH2 in H. apply (MSeq E H).
    + apply Matches_Seq_inv in H as (s1 & s2 & E & H1 & H2).
      destruct s1 as [|d s1]; simpl in E.
      * subst s2. apply MAltR.
        apply nullable_spec in H1; rewrite H1. apply IH2; assumption.
      * injection E as -> ->. apply MAltL, seq'_spec.
        apply MSeq; [apply IH1|]; assumption.
  - rewrite alt'_spec; split; intros H;
      apply Matches_Alt_inv in H as [H | H];
      solve [apply MAltL, IH1; assumption | apply MAltR, IH2; assumption].
  - rewrite seq'_spec; split; intros H.
    + apply Matches_Seq_inv in H as (s1 & s2 & -> & H1 & H2).
      apply IH in H1. apply (MStarCons H1 H2).
    + apply Matches_Star_cons in H as (s1 & s2 & -> & H1 & H2).
      apply MSeq; [apply IH|]; assumption.
Qed.

Theorem matchWhole_spec (s : jsstring) : forall r : regex,
  matchWhole r s = true <-> Matches r s.
Proof.
  induction s as [|c s IH]; intros r; simpl.
  - apply nullable_spec.
  - rewrite IH. apply deriv_spec.
Qed.

Theorem matchPrefix_spec (s : jsstring) : forall r : regex,
  matchPrefix r s = true <->
  exists s1 s2, s = s1 ++ s2 /\ Matches r s1.
Proof.
  induction s as [|c s IH]; intros r; simpl.
  - rewrite orb_false_r, nullable_spec; split.
    + intros H; exists [], []; auto.
    + intros (s1 & s2 & E & H). symmetry in E.
      apply app_eq_nil in E as [-> _]; assumption.
  - rewrite orb_true_iff, nullable_spec, IH; split.
    + intros [H | (s1 & s2 & -> & H)].
      * exists [], (c :: s); auto.
      * exists (c :: s1), s2; split; [reflexivity | apply deriv_spec, H].
    + intros (s1 & s2 & E & H). destruct s1 as [|d s1]; [left; assumption|].
      simpl in E; injection E as <- ->. right.
      exists s1, s2; split; [reflexivity | apply deriv_spec, H].
Qed.

(** Nothing matches once the derivative is [Void]. *)
Lemma matchWhole_Void (s : jsstring) : matchWhole Void s = false.
Proof. induction s; simpl; auto. Qed.

Lemma matchPrefix_Void (s : jsstring) : matchPrefix Void s = false.
Proof. induction s; simpl; auto. Qed.

End RegexFacts.

(** ** The patterns on sample lines *)

Module PatternExamples.
Import JS Regex.

Example hash_heading_line :
  SubtopicDetailModal.isHeading (lit "## Intro") = true.
Proof. vm_compute. reflexivity. Qed.

Example lone_hash_line : SubtopicDetailModal.isHeading (lit "#") = false.
Proof. vm_compute. reflexivity. Qed.

Example numbered_line : SubtopicDetailModal.isHeading (lit "12. item") = true.
Proof. vm_compute. reflexivity. Qed.

Example indented_bullet_line :
  SubtopicDetailModal.isHeading (lit "  * item") = true.
Proof. vm_compute. reflexivity. Qed.

Example plain_line : SubtopicDetailModal.isHeading (lit "plain text") = false.
Proof. vm_compute. reflexivity. Qed.

(** [.] does not match a carriage return, and [$] is the end of the string. *)
Example carriage_return_line :
  SubtopicDetailModal.isHeading (lit "## Intro" ++ [13%N]) = false.
Proof. vm_compute. reflexivity. Qed.

Example bold_line :
  SubtopicDetailModal.renderClass (lit "**Important**")
  = SubtopicDetailModal.BoldEmphasis.
Proof. vm_compute. reflexivity. Qed.

Example keyword_trigger_any_case :
  AnalysisModal.isTrigger (lit "Key Topics:  ") = true.
Proof. vm_compute. reflexivity. Qed.

Example numbered_trigger : AnalysisModal.isTrigger (lit "1. First") = true.
Proof. vm_compute. reflexivity. Qed.

(** The bullet pattern asks for a white space after the dash and the space. *)
Example bullet_trigger_two_spaces :
  AnalysisModal.isTrigger (lit "-  item") = true
  /\ AnalysisModal.isTrigger (lit "- item") = false.
Proof. vm_compute. split; reflexivity. Qed.

Example title_of_keyword :
  AnalysisModal.titleOf (lit "Summary: ") = lit "Summary".
Proof. vm_compute. reflexivity. Qed.

Example sections_by_keyword :
  AnalysisModal.parseAnalysis
    (lit "Summary:\nLine1\nLine2\nKey Topics:\nLine3")
  = [AnalysisModal.Section_ (lit "Summary") [lit "Line1"; lit "Line2"];
     AnalysisModal.Section_ (lit "Key Topics") [lit "Line3"]].
Proof. vm_compute. reflexivity. Qed.

Example pages_of_three_lines :
  SubtopicDetailModal.paginateContent (lit "one\n\n  two\nthree")
  = [lit "one\n  two\nthree"].
Proof. vm_compute. reflexivity. Qed.

End PatternExamples.

(** ** The page builder *)

Module PagerFacts.
Import JS Regex JSFacts SubtopicDetailModal.

Local Ltac bools :=
  repeat match goal with
  | H : (_ <=? _) = true |- _ => apply Nat.leb_le in H
  | H : (_ <=? _) = false |- _ => apply Nat.leb_gt in H
  | H : (_ =? _)%Z = true |- _ => apply Z.eqb_eq in H
  | H : (_ =? _)%Z = false |- _ => apply Z.eqb_neq in H
  end.

Lemma Forall_snoc {A : Type} (P : A -> Prop) (l : list A) (x : A) :
  Forall P l -> P x -> Forall P (l ++ [x]).
Proof. intros; apply Forall_app; auto. Qed.

Lemma Forall_snoc_inv {A : Type} (P : A -> Prop) (l : list A) (x : A) :
  Forall P (l ++ [x]) -> Forall P l /\ P x.
Proof.
  intros H; apply Forall_app in H as [H1 H2]; inversion H2; auto.
Qed.

Lemma concat_snoc {A : Type} (gs : list (list A)) (g : list A) :
  concat (gs ++ [g]) = concat gs ++ g.
Proof. rewrite concat_app; simpl; rewrite app_nil_r; reflexivity. Qed.

(** The two tests of the loop body, read as propositions. *)
Lemma preAppend_cases (st : pager) (line : jsstring) :
  (isHeading line = true
   /\ MIN_LINES_PER_PAGE <= length (currentPageLines st) <= LINES_PER_PAGE
   /\ preAppend st line = flush st)
  \/
  (~ (isHeading line = true
      /\ MIN_LINES_PER_PAGE <= length (currentPageLines st) <= LINES_PER_PAGE)
   /\ preAppend st line = st).
Proof.
  unfold preAppend.
  destruct (isHeading line);
    destruct (MIN_LINES_PER_PAGE <=? length (currentPageLines st)) eqn:E1;
    destruct (length (currentPageLines st) <=? LINES_PER_PAGE) eqn:E2;
    bools; cbn [andb];
    solve [left; auto | right; split; [intros (? & ? & ?); (congruence || lia) | reflexivity]].
Qed.

Lemma postAppend_cases (len : nat) (st : pager) (index : nat) :
  ((LINES_PER_PAGE <= length (currentPageLines st)
    \/ Z.of_nat index = (Z.of_nat len - 1)%Z)
   /\ postAppend len st index = flush st)
  \/
  (length (currentPageLines st) < LINES_PER_PAGE
   /\ Z.of_nat index <> (Z.of_nat len - 1)%Z
   /\ postAppend len st index = st).
Proof.
  unfold postAppend.
  destruct (LINES_PER_PAGE <=? length (currentPageLines st)) eqn:E1;
    destruct (Z.of_nat index =? Z.of_nat len - 1)%Z eqn:E2;
    bools; cbn [orb]; auto.
Qed.

(** One turn of the loop on a line that is not the last. *)
Lemma pagerBody_step (len index : nat) (done : list jsstring) (st : pager)
    (groups : list (list jsstring)) (line : jsstring) :
  Inv done st groups ->
  Z.of_nat index <> (Z.of_nat len - 1)%Z ->
  exists groups', Inv (done ++ [line]) (pagerBody len st line index) groups'.
Proof.
  destruct st as [pg cur]. unfold Inv; cbn [pages currentPageLines].
  intros (Hpg & Hdone & Hcur & Hsize & Hplain) Hidx.
  unfold pagerBody.
  destruct (preAppend_cases (Pager pg cur) line) as [(Hh & Hlen & ->) | (Hno & ->)];
    cbn [pages currentPageLines flush append] in *.
  - (* the buffer is closed before the line *)
    unfold append, flush; cbn [pages currentPageLines app].
    destruct (postAppend_cases len (Pager (pg ++ [join [NL] cur]) [line]) index)
      as [([H | H] & _) | (_ & _ & ->)]; cbn [pages currentPageLines length] in *.
    + unfold LINES_PER_PAGE in H; lia.
    + contradiction.
    + exists (groups ++ [cur]); repeat split.
      * rewrite map_app, Hpg; reflexivity.
      * rewrite concat_snoc, Hdone; reflexivity.
      * unfold LINES_PER_PAGE; lia.
      * apply Forall_snoc; auto.
      * intros Hp; apply Forall_snoc_inv in Hp as [_ Hp]. congruence.
  - unfold append; cbn [pages currentPageLines].
    destruct (postAppend_cases len (Pager pg (cur ++ [line])) index)
      as [([H | H] & ->) | (H & _ & ->)]; unfold flush;
      cbn [pages currentPageLines] in *; try contradiction;
      rewrite length_app in H; cbn [length] in H.
    + (* the buffer is full with the line *)
      exists (groups ++ [cur ++ [line]]); repeat split.
      * rewrite map_app, Hpg; reflexivity.
      * rewrite concat_snoc, app_nil_r, app_assoc, Hdone; reflexivity.
      * cbn [length]; unfold LINES_PER_PAGE; lia.
      * apply Forall_snoc; auto. rewrite length_app; cbn [length].
        unfold LINES_PER_PAGE, MIN_LINES_PER_PAGE in *; lia.
      * intros Hp; apply Forall_snoc_inv in Hp as [Hp _].
        apply Forall_snoc; auto. rewrite length_app; cbn [length]. lia.
    + exists groups; repeat split; auto.
      * rewrite app_assoc, Hdone; reflexivity.
      * rewrite length_app; cbn [length]; assumption.
      * intros Hp; apply Forall_snoc_inv in Hp as [Hp _]; auto.
Qed.

(** The turn of the loop on the last line. *)
Lemma pagerBody_last (len index : nat) (done : list jsstring) (st : pager)
    (groups : list (list jsstring)) (line : jsstring) :
  Inv done st groups ->
  Z.of_nat index = (Z.of_nat len - 1)%Z ->
  exists front final,
    Final (done ++ [line]) (pagerBody len st line index) front final.
Proof.
  destruct st as [pg cur]. unfold Inv, Final; cbn [pages currentPageLines].
  intros (Hpg & Hdone & Hcur & Hsize & Hplain) Hidx.
  unfold pagerBody.
  destruct (preAppend_cases (Pager pg cur) line) as [(Hh & Hlen & ->) | (Hno & ->)];
    cbn [pages currentPageLines flush append] in *.
  - unfold append, flush; cbn [pages currentPageLines app].
    destruct (postAppend_cases len (Pager (pg ++ [join [NL] cur]) [line]) index)
      as [(_ & ->) | (_ & H & _)]; [|contradiction].
    unfold flush; cbn [pages currentPageLines].
    exists (groups ++ [cur]), [line]; repeat split.
    + rewrite !map_app, Hpg; reflexivity.
    + rewrite !concat_snoc, Hdone; reflexivity.
    + apply Forall_snoc; auto.
    + cbn [length]; lia.
    + cbn [length]; unfold LINES_PER_PAGE; lia.
    + intros Hp; apply Forall_snoc_inv in Hp as [_ Hp]. congruence.
  - unfold append; cbn [pages currentPageLines].
    destruct (postAppend_cases len (Pager pg (cur ++ [line])) index)
      as [(_ & ->) | (_ & H & _)]; [|contradiction].
    unfold flush; cbn [pages currentPageLines].
    exists groups, (cur ++ [line]); repeat split.
    + rewrite map_app, Hpg; reflexivity.
    + rewrite concat_snoc, app_assoc, Hdone; reflexivity.
    + assumption.
    + rewrite length_app; cbn [length]; lia.
    + rewrite length_app; cbn [length]; unfold LINES_PER_PAGE in *; lia.
    + intros Hp; apply Forall_snoc_inv in Hp as [Hp _]; auto.
Qed.

(** The whole loop, started anywhere in the array. *)
Lemma loop_from (len : nat) (rest : list jsstring) :
  forall (done : list jsstring) (st : pager) (groups : list (list jsstring)),
    rest <> [] ->
    len = length done + length rest ->
    Inv done st groups ->
    exists front final,
      Final (done ++ rest) (forEachFrom (pagerBody len) (length done) rest st)
        front final.
Proof.
  induction rest as [|line rest IH]; intros done st groups Hne Hlen Hinv;
    [congruence|].
  destruct rest as [|line' rest].
  - cbn [forEachFrom]. apply pagerBody_last with (groups := groups); auto.
    cbn [length] in Hlen; lia.
  - cbn [forEachFrom].
    destruct (pagerBody_step len (length done) line Hinv) as (groups' & Hinv').
    { cbn [length] in Hlen; lia. }
    specialize (IH (done ++ [line]) (pagerBody len st line (length done)) groups').
    rewrite length_app, Nat.add_1_r, <- app_assoc in IH. cbn [length app] in IH.
    apply IH; auto; [discriminate | cbn [length] in Hlen; lia].
Qed.

Lemma Inv_start : Inv [] (Pager [] []) [].
Proof.
  unfold Inv; cbn; repeat split; auto; unfold LINES_PER_PAGE; lia.
Qed.

(** The pages of a non-empty array of lines. *)
Theorem paginateLines_groups (lines : list jsstring) :
  lines <> [] ->
  exists front final,
    paginateLines lines = map (join [NL]) (front ++ [final])
    /\ concat (front ++ [final]) = lines
    /\ Forall (fun g => MIN_LINES_PER_PAGE <= length g <= LINES_PER_PAGE) front
    /\ 1 <= length final <= LINES_PER_PAGE
    /\ (Forall (fun l => isHeading l = false) lines ->
        Forall (fun g => length g = LINES_PER_PAGE) front).
Proof.
  intros Hne.
  destruct (@loop_from (length lines) lines [] (Pager [] []) [] Hne eq_refl Inv_start)
    as (front & final & Hcur & Hpg & Hrest).
  exists front, final. split; [|exact Hrest].
  unfold paginateLines, forEach. cbn [length app] in *.
  rewrite Hcur; cbn [length Nat.ltb Nat.leb]. exact Hpg.
Qed.

Lemma paginateLines_nil : paginateLines [] = [].
Proof. reflexivity. Qed.

(** The lines of the content contain no line feed and are not blank. *)
Lemma contentLines_pieces (content : jsstring) :
  Forall (fun line => ~ In NL line) (contentLines content).
Proof.
  unfold contentLines. apply Forall_forall. intros line Hin.
  apply filter_In in Hin as [Hin _].
  revert line Hin. apply Forall_forall, split_pieces.
Qed.

(** A page made of a group of lines shows these lines again. *)
Lemma pageLines_join (g : list jsstring) :
  1 <= length g -> Forall (fun line => ~ In NL line) g ->
  pageLines (join [NL] g) = g.
Proof.
  intros Hlen Hg. unfold pageLines. apply split_join; auto.
  destruct g; [cbn in Hlen; lia | discriminate].
Qed.

Lemma pageLines_groups (groups : list (list jsstring)) :
  Forall (fun g => 1 <= length g) groups ->
  Forall (fun line => ~ In NL line) (concat groups) ->
  map pageLines (map (join [NL]) groups) = groups.
Proof.
  induction groups as [|g groups IH]; intros Hlen Hok; [reflexivity|].
  inversion Hlen; subst. cbn [concat] in Hok.
  apply Forall_app in Hok as [Hg Hrest].
  cbn [map]. rewrite pageLines_join, IH; auto.
Qed.

(** The pages of a content with at least one line, as lists of lines. *)
Theorem paginateContent_pages (content : jsstring) :
  contentLines content <> [] ->
  exists front final,
    map pageLines (paginateContent content) = front ++ [final]
    /\ concat (front ++ [final]) = contentLines content
    /\ Forall (fun g => MIN_LINES_PER_PAGE <= length g <= LINES_PER_PAGE) front
    /\ 1 <= length final <= LINES_PER_PAGE
    /\ (Forall (fun l => isHeading l = false) (contentLines content) ->
        Forall (fun g => length g = LINES_PER_PAGE) front).
Proof.
  intros Hne. unfold paginateContent.
  destruct (paginateLines_groups Hne)
    as (front & final & Hpg & Hcat & Hfront & Hfinal & Hplain).
  exists front, final. repeat split; auto; try apply Hfinal.
  rewrite Hpg. apply pageLines_groups.
  - apply Forall_snoc; [|apply Hfinal].
    revert Hfront; apply Forall_impl; unfold MIN_LINES_PER_PAGE; intros; lia.
  - rewrite Hcat. apply contentLines_pieces.
Qed.

Lemma paginateContent_no_lines (content : jsstring) :
  contentLines content = [] -> paginateContent content = [].
Proof. unfold paginateContent; intros ->; reflexivity. Qed.

(** Cutting the concatenation of full groups and a last group gives the
    groups back. *)
Lemma chunksFuel_nil {A : Type} (fuel m : nat) : @chunksFuel A fuel m [] = [].
Proof. destruct fuel; reflexivity. Qed.

Lemma chunksFuel_concat {A : Type} (m : nat) (front : list (list A)) :
  forall (final : list A) (fuel : nat),
    Forall (fun g => length g = m) front ->
    1 <= length final <= m ->
    length front < fuel ->
    chunksFuel fuel m (concat (front ++ [final])) = front ++ [final].
Proof.
  induction front as [|g front IH]; intros final fuel Hfront Hfinal Hfuel.
  - cbn [app concat]. rewrite app_nil_r.
    destruct fuel as [|fuel]; [cbn in Hfuel; lia|].
    destruct final as [|x final]; [cbn in Hfinal; lia|].
    cbn [chunksFuel].
    rewrite firstn_all2, skipn_all2, chunksFuel_nil by lia. reflexivity.
  - inversion Hfront as [|? ? Hg Hfront']; subst.
    destruct fuel as [|fuel]; [cbn in Hfuel; lia|].
    cbn [app concat chunksFuel].
    destruct g as [|x g]; [cbn in Hfinal; lia|].
    cbn [app].
    change (x :: g ++ concat (front ++ [final]))
      with ((x :: g) ++ concat (front ++ [final])).
    rewrite firstn_app, skipn_app, Nat.sub_diag.
    rewrite firstn_all2, skipn_all2 by lia.
    cbn [firstn skipn app]. rewrite app_nil_r.
    rewrite IH; auto. cbn [length] in Hfuel; lia.
Qed.

Lemma length_concat_groups {A : Type} (m : nat) (front : list (list A)) :
  Forall (fun g => length g = m) front ->
  length (concat front) = m * length front.
Proof.
  induction 1 as [|g front Hg _ IH]; cbn [concat length]; [lia|].
  rewrite length_app, IH, Hg. lia.
Qed.

Lemma map_length_groups {A : Type} (m : nat) (front : list (list A)) :
  Forall (fun g => length g = m) front ->
  map (@length A) front = repeat m (length front).
Proof.
  induction 1 as [|g front Hg _ IH]; cbn [map repeat length]; congruence.
Qed.

Lemma pageSizes_groups (front : nat) (final : nat) :
  1 <= final <= LINES_PER_PAGE ->
  pageSizes (LINES_PER_PAGE * front + final)
  = repeat LINES_PER_PAGE front ++ [final].
Proof.
  intros Hfinal. unfold pageSizes.
  assert (Hpos : LINES_PER_PAGE <> 0) by (unfold LINES_PER_PAGE; lia).
  destruct (Nat.eq_dec final LINES_PER_PAGE) as [-> | Hlt].
  - replace (LINES_PER_PAGE * front + LINES_PER_PAGE)
      with (S front * LINES_PER_PAGE) by lia.
    rewrite Nat.div_mul, Nat.Div0.mod_mul by assumption.
    cbn [Nat.eqb app repeat]. rewrite app_nil_r. apply repeat_cons.
  - assert (Hdiv : (LINES_PER_PAGE * front + final) / LINES_PER_PAGE = front).
    { symmetry; apply Nat.div_unique with (r := final); lia. }
    assert (Hmod : (LINES_PER_PAGE * front + final) mod LINES_PER_PAGE = final).
    { symmetry; apply Nat.mod_unique with (q := front); lia. }
    rewrite Hdiv, Hmod.
    destruct (Nat.eqb_spec final 0); [lia | reflexivity].
Qed.

Lemma snoc_neq {A : Type} (l : list A) (x : A) : l ++ [x] <> l.
Proof.
  intros E. apply (f_equal (@length A)) in E.
  rewrite length_app in E; cbn in E; lia.
Qed.

Lemma map_removelast {A B : Type} (f : A -> B) (l : list A) :
  map f (removelast l) = removelast (map f l).
Proof.
  induction l as [|x [|y l] IH]; try reflexivity.
  change (f x :: map f (removelast (y :: l)) = f x :: removelast (map f (y :: l))).
  rewrite IH; reflexivity.
Qed.

Lemma Forall_isHeading_false (lines : list jsstring) :
  forallb (fun l => negb (isHeading l)) lines = true ->
  Forall (fun l => isHeading l = false) lines.
Proof.
  intros H. apply Forall_forall. intros l Hin.
  rewrite forallb_forall in H. apply negb_true_iff, H, Hin.
Qed.

(** *** Round trip *)

(** C1, as the code has it: the lines of all pages of [paginateContent],
    taken in page order, are exactly the lines of the input that are not
    blank, in their order and as they stand in the input.  The lines are
    not trimmed: [trim] only decides which lines are dropped. *)
Theorem paginateContent_roundtrip (content : jsstring) :
  concat (map pageLines (paginateContent content))
  = filter (fun line => negb (str_eqb (trim line) [])) (split NL content).
Proof.
  change (concat (map pageLines (paginateContent content)) = contentLines content).
  destruct (contentLines content) as [|l ls] eqn:E.
  - rewrite paginateContent_no_lines by assumption. reflexivity.
  - destruct (@paginateContent_pages content) as (front & final & -> & Hcat & _).
    + rewrite E; discriminate.
    + rewrite Hcat; assumption.
Qed.

(** C1 as stated fails on an indented line: the page keeps the leading
    space, the trimmed line does not have it. *)
Lemma paginateContent_roundtrip_trimmed_fails :
  concat (map pageLines (paginateContent (lit " a")))
  <> map trim (filter (fun line => negb (str_eqb (trim line) []))
                 (split NL (lit " a"))).
Proof. vm_compute. discriminate. Qed.

(** *** Page sizes *)

(** C2: no page of [paginateContent] has more than [LINES_PER_PAGE] lines,
    and every page but the last has at least [MIN_LINES_PER_PAGE] lines. *)
Theorem paginateContent_page_sizes (content : jsstring) :
  Forall (fun page => lineCount page <= LINES_PER_PAGE) (paginateContent content)
  /\ Forall (fun page => MIN_LINES_PER_PAGE <= lineCount page)
       (removelast (paginateContent content)).
Proof.
  destruct (contentLines content) as [|l ls] eqn:E.
  - rewrite paginateContent_no_lines by assumption. split; constructor.
  - destruct (@paginateContent_pages content)
      as (front & final & Hpg & _ & Hfront & Hfinal & _).
    { rewrite E; discriminate. }
    unfold lineCount. split.
    + apply (Forall_map pageLines (fun g => length g <= LINES_PER_PAGE)).
      rewrite Hpg. apply Forall_snoc; [|apply Hfinal].
      revert Hfront; apply Forall_impl; intros; lia.
    + apply (Forall_map pageLines (fun g => MIN_LINES_PER_PAGE <= length g)).
      rewrite map_removelast, Hpg, removelast_last.
      revert Hfront; apply Forall_impl; intros; lia.
Qed.

(** *** The break before a line *)

(** C3, as the code has it: the buffer is closed before a line exactly when
    the line passes the test [isHeading] and the buffer holds between
    [MIN_LINES_PER_PAGE] and [LINES_PER_PAGE] lines; otherwise nothing
    happens before the line is appended.  The test [isHeading] holds when
    the whole line is a word of the hash heading pattern or of the list
    marker pattern, or a prefix of it is a word of the bold-and-colon
    pattern.  The list marker pattern is the one of the rendering loop: a
    line shown as a bullet or numbered item passes the test, and so does
    trigger the break. *)
Theorem preAppend_flush_iff (st : pager) (line : jsstring) :
  (preAppend st line = flush st <->
     isHeading line = true
     /\ MIN_LINES_PER_PAGE <= length (currentPageLines st) <= LINES_PER_PAGE)
  /\ (preAppend st line = st <->
       ~ (isHeading line = true
          /\ MIN_LINES_PER_PAGE <= length (currentPageLines st) <= LINES_PER_PAGE))
  /\ (isHeading line = true <->
       Matches hashHeading line
       \/ Matches listMarker line
       \/ (exists s1 s2, line = s1 ++ s2 /\ Matches boldColon s1))
  /\ (renderClass line = BulletOrNumbered -> isHeading line = true).
Proof.
  assert (Hne : flush st <> st).
  { destruct st as [pg cur]; unfold flush; cbn [pages currentPageLines].
    intros [= E _]. exact (@snoc_neq _ _ _ E). }
  split; [|split; [|split]].
  - split.
    + intros E. destruct (preAppend_cases st line) as [(? & ? & _) | (_ & E')]; auto.
      congruence.
    + intros H. destruct (preAppend_cases st line) as [(_ & _ & E) | (Hno & _)]; tauto.
  - split.
    + intros E H. destruct (preAppend_cases st line) as [(_ & _ & E') | (Hno & _)]; auto.
      congruence.
    + intros H. destruct (preAppend_cases st line) as [(? & ? & _) | (_ & E)]; tauto.
  - unfold isHeading.
    rewrite !orb_true_iff, !RegexFacts.matchWhole_spec, RegexFacts.matchPrefix_spec.
    tauto.
  - unfold renderClass, isBullet, isHeading.
    destruct (isBold line); [discriminate|].
    destruct (matchWhole listMarker line); [|discriminate].
    intros _. rewrite orb_true_r. reflexivity.
Qed.

(** C3 as stated fails on a bullet line: ["- item"] is shown as a bullet,
    it matches neither the hash heading nor the bold-and-colon pattern, and
    yet after ten plain lines it closes the buffer and starts a new page. *)
Lemma preAppend_bullet_breaks :
  renderClass bulletLine = BulletOrNumbered
  /\ matchWhole hashHeading bulletLine = false
  /\ matchPrefix boldColon bulletLine = false
  /\ preAppend (Pager [] tenPlainLines) bulletLine = flush (Pager [] tenPlainLines)
  /\ preAppend (Pager [] tenPlainLines) bulletLine <> Pager [] tenPlainLines
  /\ map pageLines (paginateLines (tenPlainLines ++ [bulletLine]))
     = [tenPlainLines; [bulletLine]].
Proof. vm_compute. repeat split; discriminate. Qed.

(** *** The bold line with a colon *)

Lemma Matches_chr_inv (c : char) (s : jsstring) :
  Matches (chr c) s -> s = [c].
Proof.
  intros H. apply RegexFacts.Matches_Class_inv in H as (d & -> & E).
  apply N.eqb_eq in E; subst; reflexivity.
Qed.

(** A line matching [/^\*\*([^*]+)\*\*$/] ends with an asterisk. *)
Lemma boldLine_last (s : jsstring) :
  Matches boldLine s -> exists s', s = s' ++ [code "*"].
Proof.
  unfold boldLine. intros H.
  apply RegexFacts.Matches_Seq_inv in H as (s1 & t1 & -> & _ & H).
  apply RegexFacts.Matches_Seq_inv in H as (s2 & t2 & -> & _ & H).
  apply RegexFacts.Matches_Seq_inv in H as (s3 & t3 & -> & _ & H).
  apply RegexFacts.Matches_Seq_inv in H as (s4 & t4 & -> & _ & H).
  apply Matches_chr_inv in H as ->.
  exists (s1 ++ s2 ++ s3 ++ s4). rewrite <- !app_assoc. reflexivity.
Qed.

(** C5: the line ["**Important**:"] passes the heading test of the page
    builder, by its bold-and-colon pattern, and is not bold for the
    rendering loop, whose pattern ends with the closing asterisks: no line
    that ends with a colon is. *)
Theorem important_line_is_heading :
  isHeading importantLine = true
  /\ matchPrefix boldColon importantLine = true
  /\ isBold importantLine = false
  /\ renderClass importantLine <> BoldEmphasis
  /\ (forall s : jsstring, isBold (s ++ [code ":"]) = false).
Proof.
  split; [vm_compute; reflexivity|].
  split; [vm_compute; reflexivity|].
  split; [vm_compute; reflexivity|].
  split; [vm_compute; discriminate|].
  intros s. unfold isBold.
  destruct (matchWhole boldLine (s ++ [code ":"])) eqn:E; [|reflexivity].
  apply RegexFacts.matchWhole_spec, boldLine_last in E as (s' & E).
  apply app_inj_tail in E as [_ E]. discriminate.
Qed.

(** *** Lines without headings *)

(** C6: when no line of the content passes the heading test, the pages are
    the lines cut every [LINES_PER_PAGE] lines: pages of exactly
    [LINES_PER_PAGE] lines, then one page with the remainder if there is
    one.  Twenty-five such lines make a page of 15 and a page of 10. *)
Theorem paginateContent_plain (content : jsstring) :
  Forall (fun line => isHeading line = false) (contentLines content) ->
  map pageLines (paginateContent content)
  = chunks LINES_PER_PAGE (contentLines content)
  /\ map lineCount (paginateContent content)
     = pageSizes (length (contentLines content))
  /\ (length (contentLines content) = 25 ->
      map lineCount (paginateContent content) = [15; 10]).
Proof.
  intros Hplain.
  assert (Hsizes : map pageLines (paginateContent content)
                     = chunks LINES_PER_PAGE (contentLines content)
                   /\ map lineCount (paginateContent content)
                     = pageSizes (length (contentLines content))).
  { destruct (contentLines content) as [|l ls] eqn:E.
    - rewrite paginateContent_no_lines by assumption. split; reflexivity.
    - destruct (@paginateContent_pages content)
        as (front & final & Hpg & Hcat & _ & Hfinal & Hfront).
      { rewrite E; discriminate. }
      rewrite E in Hcat, Hfront. specialize (Hfront Hplain).
      assert (Hlen : length (l :: ls)
                     = LINES_PER_PAGE * length front + length final).
      { rewrite <- Hcat, concat_snoc, length_app.
        rewrite (length_concat_groups Hfront). reflexivity. }
      split.
      + rewrite Hpg. unfold chunks. rewrite Hlen, <- Hcat.
        symmetry. apply chunksFuel_concat; auto.
        unfold LINES_PER_PAGE in *; lia.
      + unfold lineCount. rewrite <- (map_map pageLines (@length jsstring)), Hpg.
        rewrite Hlen, pageSizes_groups by assumption.
        rewrite map_app, (map_length_groups Hfront). reflexivity. }
  destruct Hsizes as [H1 H2]. split; [exact H1|]. split; [exact H2|].
  intros H25. rewrite H2, H25. reflexivity.
Qed.

Lemma paginateContent_plain_witness :
  Forall (fun line => isHeading line = false) (contentLines plain25)
  /\ length (contentLines plain25) = 25
  /\ map lineCount (paginateContent plain25) = [15; 10].
Proof.
  assert (H : Forall (fun line => isHeading line = false) (contentLines plain25)).
  { apply Forall_isHeading_false. vm_compute. reflexivity. }
  assert (H25 : length (contentLines plain25) = 25).
  { vm_compute. reflexivity. }
  split; [exact H|]. split; [exact H25|].
  apply (@paginateContent_plain plain25 H). exact H25.
Defined.

(** *** The number of pages *)

(** C8: a content with at least one line that is not blank gives at least
    one page, and exactly one page when these lines are fewer than
    [MIN_LINES_PER_PAGE]. *)
Theorem paginateContent_some_page (content : jsstring) :
  contentLines content <> [] ->
  1 <= length (paginateContent content)
  /\ (length (contentLines content) < MIN_LINES_PER_PAGE ->
      length (paginateContent content) = 1).
Proof.
  intros Hne.
  destruct (@paginateContent_pages content Hne)
    as (front & final & Hpg & Hcat & Hfront & _ & _).
  assert (Hlen : length (paginateContent content) = length front + 1).
  { rewrite <- (length_map pageLines), Hpg, length_app. reflexivity. }
  rewrite Hlen. split; [lia|].
  intros Hfew. destruct front as [|g front]; [reflexivity|].
  exfalso. inversion Hfront as [|? ? Hg _]; subst.
  rewrite <- Hcat in Hfew. cbn [app concat] in Hfew.
  rewrite length_app in Hfew. lia.
Qed.

Lemma paginateContent_some_page_witness :
  contentLines (lit "one\n\ntwo") <> []
  /\ 1 <= length (paginateContent (lit "one\n\ntwo"))
  /\ (length (contentLines (lit "one\n\ntwo")) < MIN_LINES_PER_PAGE ->
      length (paginateContent (lit "one\n\ntwo")) = 1).
Proof.
  assert (H : contentLines (lit "one\n\ntwo") <> []).
  { vm_compute. discriminate. }
  split; [exact H | apply (@paginateContent_some_page _ H)].
Defined.

(** *** Page navigation *)

(** C9: with at least one page and the current page between 1 and the
    number of pages, the next page and the previous page stay between 1 and
    the number of pages; next stops at the last page, previous at the
    first. *)
Theorem page_navigation_in_range (totalPages prev : Z) :
  (1 <= totalPages)%Z ->
  (1 <= prev <= totalPages)%Z ->
  (1 <= handleNextPage totalPages prev <= totalPages)%Z
  /\ (1 <= handlePreviousPage prev <= totalPages)%Z
  /\ handleNextPage totalPages totalPages = totalPages
  /\ handlePreviousPage 1 = 1%Z.
Proof.
  unfold handleNextPage, handlePreviousPage. lia.
Qed.

Lemma page_navigation_in_range_witness :
  (1 <= handleNextPage 3 3 <= 3)%Z
  /\ (1 <= handlePreviousPage 3 <= 3)%Z
  /\ handleNextPage 3 3 = 3%Z
  /\ handlePreviousPage 1 = 1%Z.
Proof.
  apply (@page_navigation_in_range 3 3); lia.
Defined.

End PagerFacts.

(** ** The section parser *)

Module ParserFacts.
Import JS Regex JSFacts AnalysisModal.

(** The callback does not use the index. *)
Lemma forEachFrom_parserBody_index (lines : list jsstring) :
  forall (i j : nat) (st : parser),
    forEachFrom parserBody i lines st = forEachFrom parserBody j lines st.
Proof.
  induction lines as [|line lines IH]; intros i j st; [reflexivity|].
  cbn [forEachFrom]. apply IH.
Qed.

Lemma parserBody_trigger (st : parser) (line : jsstring) (i : nat) :
  isTrigger line = true ->
  parserBody st line i = Parser (close st) (Some (titleOf line)) [].
Proof. intros H. unfold parserBody, close. rewrite H. reflexivity. Qed.

Lemma parserBody_other (st : parser) (line : jsstring) (i : nat) :
  isTrigger line = false ->
  parserBody st line i
  = Parser (sections st) (currentSectionTitle st) (currentSectionContent st ++ [line]).
Proof. intros H. unfold parserBody. rewrite H. reflexivity. Qed.

(** Before the first trigger the lines gather in the content, under no
    title, and no section is pushed. *)
Lemma loop_before_trigger (pre : list jsstring) :
  forall (i : nat) (held : list jsstring),
    Forall (fun line => isTrigger line = false) pre ->
    forEachFrom parserBody i pre (Parser [] None held) = Parser [] None (held ++ pre).
Proof.
  induction pre as [|line pre IH]; intros i held Hpre; cbn [forEachFrom].
  - rewrite app_nil_r; reflexivity.
  - inversion Hpre as [|? ? Hline Hpre']; subst.
    rewrite parserBody_other by assumption.
    cbn [sections currentSectionTitle currentSectionContent].
    rewrite IH by assumption. rewrite <- app_assoc. reflexivity.
Qed.

(** The first trigger discards what was gathered. *)
Lemma parserBody_first_trigger (held : list jsstring) (line : jsstring) (i : nat) :
  isTrigger line = true ->
  parserBody (Parser [] None held) line i = Parser [] (Some (titleOf line)) [].
Proof. intros H. rewrite parserBody_trigger by assumption. reflexivity. Qed.

(** Once a section is open, the sections and the open one hold the lines
    read since: the triggers as titles, the other lines as content. *)
Lemma loop_open (lines : list jsstring) :
  forall (i : nat) (st : parser) (t : jsstring),
    currentSectionTitle st = Some t ->
    exists t',
      currentSectionTitle (forEachFrom parserBody i lines st) = Some t'
      /\ flat_map content (close (forEachFrom parserBody i lines st))
         = flat_map content (close st)
           ++ filter (fun l => negb (isTrigger l)) lines
      /\ map title (close (forEachFrom parserBody i lines st))
         = map title (close st) ++ map titleOf (filter isTrigger lines).
Proof.
  induction lines as [|line lines IH]; intros i st t Ht; cbn [forEachFrom].
  - exists t. rewrite !app_nil_r. auto.
  - destruct st as [ss ti held]. cbn [currentSectionTitle] in Ht; subst ti.
    cbn [filter].
    destruct (isTrigger line) eqn:E; cbn [negb].
    + rewrite parserBody_trigger by assumption.
      destruct (IH (S i) (Parser (close (Parser ss (Some t) held))
                            (Some (titleOf line)) [])
                  (titleOf line) eq_refl) as (t' & H1 & H2 & H3).
      exists t'. split; [exact H1|]. rewrite H2, H3.
      unfold close; cbn [sections currentSectionTitle currentSectionContent].
      rewrite !flat_map_app, !map_app. cbn [flat_map map content title app].
      rewrite !app_nil_r, <- !app_assoc. auto.
    + rewrite parserBody_other by assumption.
      cbn [sections currentSectionTitle currentSectionContent].
      destruct (IH (S i) (Parser ss (Some t) (held ++ [line])) t eq_refl)
        as (t' & H1 & H2 & H3).
      exists t'. split; [exact H1|]. rewrite H2, H3.
      unfold close; cbn [sections currentSectionTitle currentSectionContent].
      rewrite !flat_map_app, !map_app. cbn [flat_map map content title app].
      rewrite !app_nil_r, <- !app_assoc. auto.
Qed.

(** The sections of an array of lines whose first trigger is [t]. *)
Theorem parseLines_first_trigger (pre : list jsstring) (t : jsstring)
    (rest : list jsstring) :
  Forall (fun line => isTrigger line = false) pre ->
  isTrigger t = true ->
  parseLines (pre ++ t :: rest) = parseLines (t :: rest)
  /\ flat_map content (parseLines (pre ++ t :: rest))
     = filter (fun l => negb (isTrigger l)) rest
  /\ map title (parseLines (pre ++ t :: rest))
     = map titleOf (t :: filter isTrigger rest).
Proof.
  intros Hpre Ht.
  assert (Hloop : forall lines,
             forEach parserBody lines (Parser [] None []) =
             forEachFrom parserBody 0 rest (Parser [] (Some (titleOf t)) []) ->
             parseLines lines
             = close (forEachFrom parserBody 0 rest (Parser [] (Some (titleOf t)) []))).
  { intros lines E. unfold parseLines. rewrite E.
    destruct (@loop_open rest 0 (Parser [] (Some (titleOf t)) []) (titleOf t) eq_refl)
      as (t' & H1 & _).
    unfold close. rewrite H1. reflexivity. }
  assert (E1 : parseLines (pre ++ t :: rest)
               = close (forEachFrom parserBody 0 rest (Parser [] (Some (titleOf t)) []))).
  { apply Hloop. unfold forEach. rewrite forEachFrom_app.
    rewrite loop_before_trigger by assumption. cbn [forEachFrom].
    rewrite parserBody_first_trigger by assumption. apply forEachFrom_parserBody_index. }
  assert (E2 : parseLines (t :: rest)
               = close (forEachFrom parserBody 0 rest (Parser [] (Some (titleOf t)) []))).
  { apply Hloop. unfold forEach. cbn [forEachFrom].
    rewrite parserBody_first_trigger by assumption. apply forEachFrom_parserBody_index. }
  split; [congruence|]. rewrite E1.
  destruct (@loop_open rest 0 (Parser [] (Some (titleOf t)) []) (titleOf t) eq_refl)
    as (_ & _ & H2 & H3).
  rewrite H2, H3. split; reflexivity.
Qed.

(** With no trigger at all the lines make one section. *)
Lemma parseLines_no_trigger (lines : list jsstring) :
  Forall (fun line => isTrigger line = false) lines ->
  lines <> [] ->
  parseLines lines = [Section_ (lit "Analysis") lines].
Proof.
  intros Hno Hne. unfold parseLines, forEach.
  rewrite loop_before_trigger by assumption.
  cbn [currentSectionTitle sections app].
  destruct lines; [congruence | reflexivity].
Qed.

Lemma filter_split_length {A : Type} (f : A -> bool) (l : list A) :
  length (filter f l) + length (filter (fun x => negb (f x)) l) = length l.
Proof.
  induction l as [|x l IH]; [reflexivity|].
  cbn [filter]. destruct (f x); cbn [negb length]; lia.
Qed.

Lemma deriv_hash_keywordHeading : deriv (code "#") keywordHeading = Void.
Proof. vm_compute. reflexivity. Qed.

Lemma deriv_hash_numberedStart : deriv (code "#") numberedStart = Void.
Proof. vm_compute. reflexivity. Qed.

Lemma deriv_hash_bulletStart : deriv (code "#") bulletStart = Void.
Proof. vm_compute. reflexivity. Qed.

(** *** The hash headings of the scenario *)

(** C4, as the code has it: for the input of the scenario [parseAnalysis]
    returns one section, titled ["Analysis"], whose content is the five
    lines of the input.  A line that starts with a hash mark is never a
    trigger: the triggers are the four keyword headings, digits followed by
    a dot and a white space, and a dash followed by a space and a white
    space. *)
Theorem parseAnalysis_intro_topic :
  parseAnalysis introTopic
  = [Section_ (lit "Analysis")
       [lit "## Intro"; lit "Line1"; lit "Line2"; lit "## Topic A"; lit "Line3"]]
  /\ (forall rest : jsstring, isTrigger (code "#" :: rest) = false).
Proof.
  split; [vm_compute; reflexivity|].
  intros rest. unfold isTrigger.
  change (matchWhole keywordHeading (code "#" :: rest))
    with (matchWhole (deriv (code "#") keywordHeading) rest).
  change (matchPrefix numberedStart (code "#" :: rest))
    with (nullable numberedStart
          || matchPrefix (deriv (code "#") numberedStart) rest).
  change (matchPrefix bulletStart (code "#" :: rest))
    with (nullable bulletStart
          || matchPrefix (deriv (code "#") bulletStart) rest).
  rewrite deriv_hash_keywordHeading, deriv_hash_numberedStart,
    deriv_hash_bulletStart.
  rewrite RegexFacts.matchWhole_Void, !RegexFacts.matchPrefix_Void.
  reflexivity.
Qed.

(** C4 as stated fails: the two sections of the scenario are not what
    [parseAnalysis] returns. *)
Lemma parseAnalysis_intro_topic_not_split :
  parseAnalysis introTopic
  <> [Section_ (lit "Intro") [lit "Line1"; lit "Line2"];
      Section_ (lit "Topic A") [lit "Line3"]].
Proof. vm_compute. discriminate. Qed.

(** *** Lines before the first trigger *)

(** C10: when the lines of the text are [pre ++ t :: rest], with [t] the
    first trigger and [pre] not empty, [parseAnalysis] returns what it
    returns for [t :: rest] alone: the content of the sections is made of
    the lines of [rest] that are not triggers, the titles come from [t] and
    the triggers of [rest], so the sections show as many lines as
    [t :: rest] has, fewer than the text; a line of [pre] that does not
    occur again in [rest] is in no content. *)
Theorem parseAnalysis_drops_preamble (text : jsstring)
    (pre : list jsstring) (t : jsstring) (rest : list jsstring) :
  textLines text = pre ++ t :: rest ->
  pre <> [] ->
  Forall (fun line => isTrigger line = false) pre ->
  isTrigger t = true ->
  parseAnalysis text = parseLines (t :: rest)
  /\ flat_map content (parseAnalysis text)
     = filter (fun l => negb (isTrigger l)) rest
  /\ map title (parseAnalysis text) = map titleOf (t :: filter isTrigger rest)
  /\ length (parseAnalysis text) + length (flat_map content (parseAnalysis text))
     = length (t :: rest)
  /\ length (t :: rest) < length (textLines text)
  /\ (forall l, In l pre -> ~ In l rest ->
      ~ In l (flat_map content (parseAnalysis text))).
Proof.
  intros Hlines Hpre Hno Ht. unfold parseAnalysis. rewrite Hlines.
  destruct (@parseLines_first_trigger pre t rest Hno Ht) as (H1 & H2 & H3).
  split; [exact H1|]. split; [exact H2|]. split; [exact H3|].
  split; [|split].
  - rewrite <- (length_map title), H2, H3. cbn [map length].
    rewrite length_map.
    pose proof (filter_split_length isTrigger rest). lia.
  - rewrite length_app. destruct pre; [congruence | cbn [length]; lia].
  - intros l _ Hl Hin. rewrite H2 in Hin.
    apply filter_In in Hin as [Hin _]. auto.
Qed.

Lemma parseAnalysis_drops_preamble_witness :
  parseAnalysis preamble = parseLines [lit "Summary:"; lit "Line1"]
  /\ flat_map content (parseAnalysis preamble) = [lit "Line1"]
  /\ length (textLines preamble) = 3.
Proof.
  assert (Hlines : textLines preamble = [lit "Preamble"] ++ lit "Summary:" :: [lit "Line1"]).
  { vm_compute. reflexivity. }
  assert (Hpre : [lit "Preamble"] <> []) by discriminate.
  assert (Hno : Forall (fun line => isTrigger line = false) [lit "Preamble"]).
  { constructor; [vm_compute; reflexivity | constructor]. }
  assert (Ht : isTrigger (lit "Summary:") = true).
  { vm_compute. reflexivity. }
  destruct (@parseAnalysis_drops_preamble preamble _ _ _ Hlines Hpre Hno Ht)
    as (H1 & H2 & _).
  split; [exact H1|]. split; [rewrite H2; vm_compute; reflexivity|].
  vm_compute. reflexivity.
Defined.

(** *** No lines *)

Lemma filter_blank (lines : list jsstring) :
  Forall (fun line => trim line = []) lines ->
  filter (fun line => negb (str_eqb (trim line) [])) lines = [].
Proof.
  induction 1 as [|line lines Hline _ IH]; [reflexivity|].
  cbn [filter]. rewrite Hline. cbn [str_eqb negb]. exact IH.
Qed.

(** C7: when every line of the input is blank, and so for the empty
    string, [paginateContent] returns no page and [parseAnalysis] no
    section.  Both are functions defined on every string. *)
Theorem no_lines_no_output (text : jsstring) :
  Forall (fun line => trim line = []) (split NL text) ->
  SubtopicDetailModal.paginateContent text = []
  /\ parseAnalysis text = [].
Proof.
  intros Hblank. apply filter_blank in Hblank.
  unfold SubtopicDetailModal.paginateContent, SubtopicDetailModal.contentLines,
    parseAnalysis, textLines, nonBlank.
  rewrite Hblank. split; reflexivity.
Qed.

Lemma no_lines_no_output_witness :
  (SubtopicDetailModal.paginateContent [] = [] /\ parseAnalysis [] = [])
  /\ (SubtopicDetailModal.paginateContent blankText = []
      /\ parseAnalysis blankText = []).
Proof.
  split.
  - apply (@no_lines_no_output []). vm_compute.
    constructor; [reflexivity | constructor].
  - apply (@no_lines_no_output blankText). vm_compute.
    repeat (constructor; [reflexivity|]). constructor.
Defined.

End ParserFacts.

(** ** White space and [trim] *)

Module TrimFacts.
Import JS.

Lemma forallb_rev {A : Type} (f : A -> bool) (l : list A) :
  forallb f (rev l) = forallb f l.
Proof.
  induction l as [|x l IH]; [reflexivity|].
  cbn [rev forallb]. rewrite forallb_app, IH. cbn [forallb].
  rewrite andb_true_r. apply andb_comm.
Qed.

Lemma trimStart_nil_iff (s : jsstring) :
  trimStart s = [] <-> forallb isSpace s = true.
Proof.
  induction s as [|c s IH]; cbn [trimStart forallb]; [tauto|].
  destruct (isSpace c); cbn [andb]; [exact IH|]. split; discriminate.
Qed.

(** [trimStart] drops a prefix of white space and stops at a code unit that
    is not white space. *)
Lemma trimStart_split (s : jsstring) :
  exists pre, s = pre ++ trimStart s /\ forallb isSpace pre = true.
Proof.
  induction s as [|c s (pre & E & Hpre)]; cbn [trimStart].
  - exists []; auto.
  - destruct (isSpace c) eqn:Hc.
    + exists (c :: pre). cbn [app forallb]. rewrite Hc, Hpre, <- E. auto.
    + exists []; auto.
Qed.

Lemma trimStart_head (s : jsstring) (c : char) (t : jsstring) :
  trimStart s = c :: t -> isSpace c = false.
Proof.
  induction s as [|d s IH]; cbn [trimStart]; [discriminate|].
  destruct (isSpace d) eqn:Hd; [exact IH|].
  intros [= -> _]; assumption.
Qed.

Lemma trimStart_fixed (c : char) (t : jsstring) :
  isSpace c = false -> trimStart (c :: t) = c :: t.
Proof. intros H; cbn [trimStart]; rewrite H; reflexivity. Qed.

(** [trimEnd] keeps a prefix of the string. *)
Lemma trimEnd_split (s : jsstring) :
  exists post, s = trimEnd s ++ post /\ forallb isSpace post = true.
Proof.
  unfold trimEnd. destruct (trimStart_split (rev s)) as (pre & E & Hpre).
  exists (rev pre). split.
  - rewrite <- rev_app_distr, <- E, rev_involutive. reflexivity.
  - rewrite forallb_rev. assumption.
Qed.

Lemma trimEnd_last (s t : jsstring) (c : char) :
  trimEnd s = t ++ [c] -> isSpace c = false.
Proof.
  unfold trimEnd. intros E.
  apply (f_equal (@rev char)) in E.
  rewrite rev_involutive, rev_app_distr in E. cbn [rev app] in E.
  exact (@trimStart_head _ _ _ E).
Qed.

Lemma trimEnd_nil_iff (s : jsstring) :
  trimEnd s = [] <-> forallb isSpace s = true.
Proof.
  unfold trimEnd. rewrite <- (forallb_rev isSpace s), <- trimStart_nil_iff.
  split; intros E.
  - apply (f_equal (@rev char)) in E. rewrite rev_involutive in E. exact E.
  - rewrite E; reflexivity.
Qed.

Lemma trimEnd_fixed (t : jsstring) (c : char) :
  isSpace c = false -> trimEnd (t ++ [c]) = t ++ [c].
Proof.
  intros H. unfold trimEnd. rewrite rev_app_distr. cbn [rev app].
  rewrite trimStart_fixed by assumption.
  cbn [rev]. rewrite rev_involutive. reflexivity.
Qed.

(** The head of a trimmed string is the first code unit of the string that
    is not white space. *)
Lemma trim_nil_iff (s : jsstring) :
  trim s = [] <-> forallb isSpace s = true.
Proof.
  unfold trim. rewrite trimEnd_nil_iff. split; intros H.
  - destruct (trimStart s) as [|c t] eqn:E; [apply trimStart_nil_iff, E|].
    apply trimStart_head in E. cbn [forallb] in H. rewrite E in H. discriminate.
  - apply trimStart_nil_iff in H. rewrite H. reflexivity.
Qed.

Lemma trim_head (s : jsstring) (c : char) (t : jsstring) :
  trim s = c :: t -> isSpace c = false.
Proof.
  unfold trim. intros E.
  destruct (trimEnd_split (trimStart s)) as (post & Es & _).
  rewrite E in Es. cbn [app] in Es. exact (@trimStart_head _ _ _ Es).
Qed.

Lemma trim_last (s t : jsstring) (c : char) :
  trim s = t ++ [c] -> isSpace c = false.
Proof. unfold trim. apply trimEnd_last. Qed.

(** The middle of a string between two code units that are not white space
    is kept as it is. *)
Lemma trim_fixed (s : jsstring) :
  (forall c t, s = c :: t -> isSpace c = false) ->
  (forall t c, s = t ++ [c] -> isSpace c = false) ->
  trim s = s.
Proof.
  intros Hhead Hlast. unfold trim.
  destruct s as [|c t]; [reflexivity|].
  rewrite trimStart_fixed by (eapply Hhead; reflexivity).
  destruct (@exists_last _ (c :: t)) as (t' & c' & E); [discriminate|].
  rewrite E. apply trimEnd_fixed. eapply Hlast; eassumption.
Qed.

Lemma existsb_negb_forallb {A : Type} (f : A -> bool) (l : list A) :
  existsb (fun x => negb (f x)) l = negb (forallb f l).
Proof.
  induction l as [|x l IH]; [reflexivity|].
  cbn [existsb forallb]. rewrite IH. destruct (f x); reflexivity.
Qed.

End TrimFacts.

(** ** Where the pages are cut *)

Module PageBreakFacts.
Import JS Regex JSFacts SubtopicDetailModal PagerFacts.

Lemma breaksAllowed_snoc (groups : list (list jsstring)) (a b : list jsstring) :
  breaksAllowed (groups ++ [a]) -> breakAllowed a b ->
  breaksAllowed (groups ++ [a; b]).
Proof.
  induction groups as [|g groups IH]; intros H Hab.
  - cbn. auto.
  - destruct groups as [|g' groups].
    + cbn in *. tauto.
    + change (breakAllowed g g' /\ breaksAllowed ((g' :: groups) ++ [a])) in H.
      change (breakAllowed g g' /\ breaksAllowed ((g' :: groups) ++ [a; b])).
      split; [apply H | apply IH; [apply H | assumption]].
Qed.

Lemma breaksAllowed_last (groups : list (list jsstring)) (a a' : list jsstring) :
  breaksAllowed (groups ++ [a]) ->
  (forall g, breakAllowed g a -> breakAllowed g a') ->
  breaksAllowed (groups ++ [a']).
Proof.
  induction groups as [|g groups IH]; intros H Ha.
  - cbn. auto.
  - destruct groups as [|g' groups].
    + cbn in *. split; [apply Ha, H | exact I].
    + change (breakAllowed g g' /\ breaksAllowed ((g' :: groups) ++ [a])) in H.
      change (breakAllowed g g' /\ breaksAllowed ((g' :: groups) ++ [a'])).
      split; [apply H | apply IH; [apply H | assumption]].
Qed.

Lemma breaksAllowed_middle (front : list (list jsstring))
    (g1 g2 : list jsstring) (back : list (list jsstring)) :
  breaksAllowed (front ++ g1 :: g2 :: back) -> breakAllowed g1 g2.
Proof.
  induction front as [|g front IH]; intros H.
  - apply H.
  - apply IH. destruct front; apply H.
Qed.

Lemma breakAllowed_append (g cur : list jsstring) (line : jsstring) :
  breakAllowed g cur -> breakAllowed g (cur ++ [line]).
Proof.
  unfold breakAllowed. intros [H | H]; [left; assumption|].
  destruct cur; [contradiction | right; assumption].
Qed.

Lemma noLateHeading_short (g : list jsstring) :
  length g <= MIN_LINES_PER_PAGE -> noLateHeading g.
Proof.
  intros H. unfold noLateHeading. rewrite skipn_all2 by assumption. constructor.
Qed.

Lemma noLateHeading_append (cur : list jsstring) (line : jsstring) :
  noLateHeading cur ->
  (MIN_LINES_PER_PAGE <= length cur -> isHeading line = false) ->
  noLateHeading (cur ++ [line]).
Proof.
  unfold noLateHeading. intros Hcur Hline. rewrite skipn_app.
  apply Forall_app. split; [assumption|].
  destruct (le_lt_dec MIN_LINES_PER_PAGE (length cur)) as [Hge | Hlt].
  - replace (MIN_LINES_PER_PAGE - length cur) with 0 by lia.
    cbn [skipn]. constructor; auto.
  - rewrite skipn_all2; [constructor|]. cbn [length]. lia.
Qed.

(** One turn of the loop on a line that is not the last. *)
Lemma pagerBody_breaks_step (len index : nat) (done : list jsstring)
    (st : pager) (groups : list (list jsstring)) (line : jsstring) :
  InvBreaks done st groups ->
  Z.of_nat index <> (Z.of_nat len - 1)%Z ->
  exists groups',
    InvBreaks (done ++ [line]) (pagerBody len st line index) groups'.
Proof.
  destruct st as [pg cur]. unfold InvBreaks; cbn [pages currentPageLines].
  intros (Hpg & Hdone & Hcur & Hpos & Hbr & Hlate & Hlatecur) Hidx.
  unfold pagerBody.
  destruct (preAppend_cases (Pager pg cur) line) as [(Hh & Hlen & ->) | (Hno & ->)];
    cbn [pages currentPageLines flush append] in *.
  - unfold append, flush; cbn [pages currentPageLines app].
    destruct (postAppend_cases len (Pager (pg ++ [join [NL] cur]) [line]) index)
      as [([H | H] & _) | (_ & _ & ->)]; cbn [pages currentPageLines length] in *.
    + unfold LINES_PER_PAGE in H; lia.
    + contradiction.
    + exists (groups ++ [cur]).
      split; [rewrite map_app, Hpg; reflexivity|].
      split; [rewrite concat_snoc, Hdone; reflexivity|].
      split; [unfold LINES_PER_PAGE; lia|].
      split; [apply Forall_snoc; auto; unfold MIN_LINES_PER_PAGE in *; lia|].
      split; [rewrite <- app_assoc; apply breaksAllowed_snoc; auto;
              right; assumption|].
      split; [apply Forall_snoc; auto|].
      apply noLateHeading_short. cbn [length]. unfold MIN_LINES_PER_PAGE. lia.
  - assert (Hline : MIN_LINES_PER_PAGE <= length cur -> isHeading line = false).
    { intros Hge. destruct (isHeading line) eqn:E; [|reflexivity].
      exfalso. apply Hno. split; [reflexivity | lia]. }
    unfold append; cbn [pages currentPageLines].
    destruct (postAppend_cases len (Pager pg (cur ++ [line])) index)
      as [([H | H] & ->) | (H & _ & ->)]; unfold flush;
      cbn [pages currentPageLines] in *; try contradiction;
      rewrite length_app in H; cbn [length] in H.
    + exists (groups ++ [cur ++ [line]]).
      split; [rewrite map_app, Hpg; reflexivity|].
      split; [rewrite concat_snoc, app_nil_r, app_assoc, Hdone; reflexivity|].
      split; [cbn [length]; unfold LINES_PER_PAGE; lia|].
      split; [apply Forall_snoc; auto; rewrite length_app; cbn [length]; lia|].
      split.
      { rewrite <- app_assoc. apply breaksAllowed_snoc.
        - apply breaksAllowed_last with (a := cur); auto.
          intros g. apply breakAllowed_append.
        - left. rewrite length_app. cbn [length]. lia. }
      split; [apply Forall_snoc; auto; apply noLateHeading_append; auto|].
      apply noLateHeading_short. cbn [length]. lia.
    + exists groups.
      split; [assumption|].
      split; [rewrite app_assoc, Hdone; reflexivity|].
      split; [rewrite length_app; cbn [length]; assumption|].
      split; [assumption|].
      split; [apply breaksAllowed_last with (a := cur); auto;
              intros g; apply breakAllowed_append|].
      split; [assumption | apply noLateHeading_append; auto].
Qed.

(** The turn of the loop on the last line. *)
Lemma pagerBody_breaks_last (len index : nat) (done : list jsstring)
    (st : pager) (groups : list (list jsstring)) (line : jsstring) :
  InvBreaks done st groups ->
  Z.of_nat index = (Z.of_nat len - 1)%Z ->
  exists groups',
    pages (pagerBody len st line index) = map (join [NL]) groups'
    /\ currentPageLines (pagerBody len st line index) = []
    /\ concat groups' = done ++ [line]
    /\ Forall (fun g => 1 <= length g) groups'
    /\ breaksAllowed groups'
    /\ Forall noLateHeading groups'.
Proof.
  destruct st as [pg cur]. unfold InvBreaks; cbn [pages currentPageLines].
  intros (Hpg & Hdone & Hcur & Hpos & Hbr & Hlate & Hlatecur) Hidx.
  unfold pagerBody.
  destruct (preAppend_cases (Pager pg cur) line) as [(Hh & Hlen & ->) | (Hno & ->)];
    cbn [pages currentPageLines flush append] in *.
  - unfold append, flush; cbn [pages currentPageLines app].
    destruct (postAppend_cases len (Pager (pg ++ [join [NL] cur]) [line]) index)
      as [(_ & ->) | (_ & H & _)]; [|contradiction].
    unfold flush; cbn [pages currentPageLines].
    exists (groups ++ [cur; [line]]).
    split; [rewrite <- app_assoc, Hpg, !map_app; reflexivity|].
    split; [reflexivity|].
    split.
    { rewrite concat_app. cbn [concat]. rewrite app_nil_r, app_assoc, Hdone.
      reflexivity. }
    split.
    { apply Forall_app; split; auto.
      repeat constructor; cbn [length]; unfold MIN_LINES_PER_PAGE in *; lia. }
    split; [apply breaksAllowed_snoc; auto; right; assumption|].
    apply Forall_app; split; auto.
    constructor; [assumption|]. constructor; [|constructor].
    apply noLateHeading_short. cbn [length]. unfold MIN_LINES_PER_PAGE. lia.
  - assert (Hline : MIN_LINES_PER_PAGE <= length cur -> isHeading line = false).
    { intros Hge. destruct (isHeading line) eqn:E; [|reflexivity].
      exfalso. apply Hno. split; [reflexivity | lia]. }
    unfold append; cbn [pages currentPageLines].
    destruct (postAppend_cases len (Pager pg (cur ++ [line])) index)
      as [(_ & ->) | (_ & H & _)]; [|contradiction].
    unfold flush; cbn [pages currentPageLines].
    exists (groups ++ [cur ++ [line]]).
    split; [rewrite map_app, Hpg; reflexivity|].
    split; [reflexivity|].
    split; [rewrite concat_snoc, app_assoc, Hdone; reflexivity|].
    split; [apply Forall_snoc; auto; rewrite length_app; cbn [length]; lia|].
    split; [apply breaksAllowed_last with (a := cur); auto;
            intros g; apply breakAllowed_append|].
    apply Forall_snoc; auto. apply noLateHeading_append; auto.
Qed.

Lemma loop_breaks_from (len : nat) (rest : list jsstring) :
  forall (done : list jsstring) (st : pager) (groups : list (list jsstring)),
    rest <> [] ->
    len = length done + length rest ->
    InvBreaks done st groups ->
    exists groups',
      pages (forEachFrom (pagerBody len) (length done) rest st)
      = map (join [NL]) groups'
      /\ currentPageLines (forEachFrom (pagerBody len) (length done) rest st) = []
      /\ concat groups' = done ++ rest
      /\ Forall (fun g => 1 <= length g) groups'
      /\ breaksAllowed groups'
      /\ Forall noLateHeading groups'.
Proof.
  induction rest as [|line rest IH]; intros done st groups Hne Hlen Hinv;
    [congruence|].
  destruct rest as [|line' rest].
  - cbn [forEachFrom]. apply pagerBody_breaks_last with (groups := groups); auto.
    cbn [length] in Hlen; lia.
  - cbn [forEachFrom].
    destruct (@pagerBody_breaks_step len (length done) done st groups line Hinv)
      as (groups' & Hinv').
    { cbn [length] in Hlen; lia. }
    specialize (IH (done ++ [line]) (pagerBody len st line (length done)) groups').
    rewrite length_app, Nat.add_1_r, <- app_assoc in IH. cbn [length app] in IH.
    apply IH; auto; [discriminate | cbn [length] in Hlen; lia].
Qed.

Lemma InvBreaks_start : InvBreaks [] (Pager [] []) [].
Proof.
  unfold InvBreaks; cbn [pages currentPageLines map concat app length].
  repeat split; auto; try constructor.
  unfold LINES_PER_PAGE; lia.
Qed.

(** The loop ends with an empty buffer, on every array of lines. *)
Lemma loop_ends_flushed (lines : list jsstring) :
  currentPageLines (forEach (pagerBody (length lines)) lines (Pager [] [])) = [].
Proof.
  destruct lines as [|l ls] eqn:E; [reflexivity|]. rewrite <- E.
  destruct (@loop_breaks_from (length lines) lines [] (Pager [] []) [])
    as (groups & _ & H & _).
  - rewrite E; discriminate.
  - reflexivity.
  - apply InvBreaks_start.
  - exact H.
Qed.

(** The pages of any content, as groups of lines and where they are cut. *)
Lemma paginateContent_break_groups (content : jsstring) :
  exists groups,
    paginateContent content = map (join [NL]) groups
    /\ map pageLines (paginateContent content) = groups
    /\ concat groups = contentLines content
    /\ Forall (fun g => 1 <= length g) groups
    /\ breaksAllowed groups
    /\ Forall noLateHeading groups.
Proof.
  unfold paginateContent.
  destruct (contentLines content) as [|l ls] eqn:E.
  - exists []. cbn. repeat split; constructor.
  - rewrite <- E.
    destruct (@loop_breaks_from (length (contentLines content))
                (contentLines content) [] (Pager [] []) [])
      as (groups & Hpg & Hcur & Hcat & Hpos & Hbr & Hlate).
    + rewrite E; discriminate.
    + reflexivity.
    + apply InvBreaks_start.
    + cbn [app length] in *.
      assert (Hpages : paginateLines (contentLines content)
                       = map (join [NL]) groups).
      { unfold paginateLines, forEach. rewrite Hcur.
        cbn [length Nat.ltb Nat.leb]. exact Hpg. }
      exists groups. rewrite Hpages. repeat split; auto.
      apply pageLines_groups; auto.
      rewrite Hcat. apply contentLines_pieces.
Qed.

(** The closing [if] of [paginateContent] never pushes a page: when the
    loop is over the buffer is empty, the last line having closed it. *)
Theorem loop_leaves_no_open_page (lines : list jsstring) :
  currentPageLines (forEach (pagerBody (length lines)) lines (Pager [] [])) = []
  /\ paginateLines lines
     = pages (forEach (pagerBody (length lines)) lines (Pager [] [])).
Proof.
  split; [apply loop_ends_flushed|].
  unfold paginateLines. rewrite loop_ends_flushed. reflexivity.
Qed.

Lemma nonBlank_not_nil (line : jsstring) : nonBlank line = true -> line <> [].
Proof. intros H ->. discriminate. Qed.

Lemma contentLines_nonBlank (content : jsstring) :
  Forall (fun line => nonBlank line = true) (contentLines content).
Proof.
  apply Forall_forall. intros line Hin.
  apply filter_In in Hin as [_ H]. exact H.
Qed.

Lemma join_not_nil (g : list jsstring) :
  1 <= length g -> Forall (fun line => nonBlank line = true) g ->
  join [NL] g <> [].
Proof.
  destruct g as [|l g]; cbn [length]; [lia|].
  intros _ H. inversion H as [|? ? Hl _]; subst.
  apply nonBlank_not_nil in Hl.
  destruct l as [|c l]; [congruence|].
  destruct g; cbn; discriminate.
Qed.

Lemma groups_pages_content (groups : list (list jsstring)) :
  Forall (fun g => 1 <= length g) groups ->
  Forall (Forall (fun line => nonBlank line = true)) groups ->
  Forall (Forall (fun line => ~ In NL line)) groups ->
  Forall (fun page =>
            page <> []
            /\ Forall (fun line => nonBlank line = true) (pageLines page))
         (map (join [NL]) groups).
Proof.
  induction groups as [|g groups IH]; intros Hpos Hnb Hok; cbn [map];
    constructor; inversion Hpos; inversion Hnb; inversion Hok; subst.
  - split; [apply join_not_nil; assumption|].
    rewrite pageLines_join; assumption.
  - apply IH; assumption.
Qed.

(** No page of [paginateContent] is the empty string, and no line of a
    page is blank. *)
Theorem pages_have_content (content : jsstring) :
  Forall (fun page =>
            page <> []
            /\ Forall (fun line => nonBlank line = true) (pageLines page))
         (paginateContent content).
Proof.
  destruct (paginateContent_break_groups content)
    as (groups & Hpg & _ & Hcat & Hpos & _).
  rewrite Hpg. apply groups_pages_content; [assumption | |].
  - apply (proj1 (Forall_concat _ groups)). rewrite Hcat.
    apply contentLines_nonBlank.
  - apply (proj1 (Forall_concat _ groups)). rewrite Hcat.
    apply contentLines_pieces.
Qed.

Lemma paginateContent_page_not_nil (content page : jsstring) :
  In page (paginateContent content) -> page <> [].
Proof.
  destruct (paginateContent_break_groups content)
    as (groups & Hpg & _ & Hcat & Hpos & _).
  rewrite Hpg. intros Hin. apply in_map_iff in Hin as (g & <- & Hg).
  rewrite Forall_forall in Hpos.
  apply join_not_nil; [apply Hpos, Hg|].
  pose proof (contentLines_nonBlank content) as Hnb.
  rewrite <- Hcat in Hnb. apply Forall_concat in Hnb.
  rewrite Forall_forall in Hnb. apply Hnb, Hg.
Qed.

(** Between two consecutive pages the first is full or the second starts
    with a line that passes the heading test. *)
Theorem page_break_reason (content : jsstring)
    (front : list (list jsstring)) (g1 g2 : list jsstring)
    (back : list (list jsstring)) :
  map pageLines (paginateContent content) = front ++ g1 :: g2 :: back ->
  length g1 = LINES_PER_PAGE
  \/ exists h t, g2 = h :: t /\ isHeading h = true.
Proof.
  intros E.
  destruct (paginateContent_break_groups content)
    as (groups & _ & Hlines & _ & _ & Hbr & _).
  rewrite Hlines in E. subst groups.
  apply breaksAllowed_middle in Hbr. destruct Hbr as [H | H]; [left; exact H|].
  right. destruct g2 as [|h t]; [contradiction|]. exists h, t. auto.
Qed.

Lemma page_break_reason_witness :
  length tenPlainLines = LINES_PER_PAGE
  \/ exists h t, [bulletLine] = h :: t /\ isHeading h = true.
Proof.
  apply (@page_break_reason
           (join [NL] (tenPlainLines ++ [bulletLine])) [] tenPlainLines
           [bulletLine] []).
  vm_compute. reflexivity.
Defined.

(** On a page, no line after the first [MIN_LINES_PER_PAGE] lines passes
    the heading test: such a line would have started a new page. *)
Theorem heading_never_late (content : jsstring) (page : jsstring)
    (i : nat) (line : jsstring) :
  In page (paginateContent content) ->
  nth_error (pageLines page) i = Some line ->
  MIN_LINES_PER_PAGE <= i ->
  isHeading line = false.
Proof.
  intros Hin Hnth Hi.
  destruct (paginateContent_break_groups content)
    as (groups & _ & Hlines & _ & _ & _ & Hlate).
  assert (Hg : In (pageLines page) groups).
  { rewrite <- Hlines. apply in_map. assumption. }
  rewrite Forall_forall in Hlate. specialize (Hlate _ Hg).
  unfold noLateHeading in Hlate. rewrite Forall_forall in Hlate.
  apply Hlate.
  apply nth_error_In with (n := i - MIN_LINES_PER_PAGE).
  rewrite nth_error_skipn.
  replace (MIN_LINES_PER_PAGE + (i - MIN_LINES_PER_PAGE)) with i by lia.
  assumption.
Qed.

Lemma heading_never_late_witness :
  isHeading (lit "plain text") = false.
Proof.
  apply (@heading_never_late plain25 (join [NL] (repeat (lit "plain text") 15))
           12 (lit "plain text")).
  - vm_compute. left. reflexivity.
  - vm_compute. reflexivity.
  - unfold MIN_LINES_PER_PAGE. lia.
Defined.

Lemma length_concat_bounds {A : Type} (a b : nat) (groups : list (list A)) :
  Forall (fun g => a <= length g <= b) groups ->
  a * length groups <= length (concat groups) <= b * length groups.
Proof.
  induction 1 as [|g groups Hg _ IH]; cbn [concat length]; [lia|].
  rewrite length_app. lia.
Qed.

(** The number of pages for [n] lines: at least [n / 15] rounded up, at most
    [(n - 1) / 10 + 1], as every page has at most 15 lines and every page
    but the last at least 10. *)
Theorem page_count_bounds (content : jsstring) :
  length (contentLines content)
  <= LINES_PER_PAGE * length (paginateContent content)
  /\ MIN_LINES_PER_PAGE * length (paginateContent content)
     <= length (contentLines content) + (MIN_LINES_PER_PAGE - 1).
Proof.
  destruct (contentLines content) as [|l ls] eqn:E.
  - rewrite paginateContent_no_lines by assumption. cbn. lia.
  - destruct (@paginateContent_pages content)
      as (front & final & Hpg & Hcat & Hfront & Hfinal & _).
    { rewrite E; discriminate. }
    rewrite E in Hcat.
    assert (Hlen : length (paginateContent content) = length front + 1).
    { rewrite <- (length_map pageLines), Hpg, length_app. reflexivity. }
    pose proof (length_concat_bounds Hfront) as Hb.
    rewrite <- Hcat, concat_snoc, length_app, Hlen.
    unfold LINES_PER_PAGE, MIN_LINES_PER_PAGE in *. lia.
Qed.

Lemma join_app (sep : jsstring) (l1 l2 : list jsstring) :
  l1 <> [] -> l2 <> [] ->
  join sep (l1 ++ l2) = join sep l1 ++ sep ++ join sep l2.
Proof.
  induction l1 as [|x l1 IH]; intros H1 H2; [congruence|].
  destruct l1 as [|y l1].
  - destruct l2; [congruence | reflexivity].
  - change (x ++ sep ++ join sep ((y :: l1) ++ l2)
            = (x ++ sep ++ join sep (y :: l1)) ++ sep ++ join sep l2).
    rewrite IH by (auto; discriminate). rewrite <- !app_assoc. reflexivity.
Qed.

Lemma join_concat (sep : jsstring) (groups : list (list jsstring)) :
  Forall (fun g => 1 <= length g) groups ->
  join sep (map (join sep) groups) = join sep (concat groups).
Proof.
  induction 1 as [|g groups Hg Hrest IH]; [reflexivity|].
  destruct groups as [|g' groups].
  - cbn. rewrite app_nil_r. reflexivity.
  - change (join sep g ++ sep ++ join sep (map (join sep) (g' :: groups))
            = join sep (g ++ concat (g' :: groups))).
    rewrite IH, join_app; [reflexivity | |].
    + destruct g; [cbn in Hg; lia | discriminate].
    + inversion Hrest as [|? ? Hg' _]; subst.
      destruct g'; [cbn in Hg'; lia | discriminate].
Qed.

Lemma filter_all {A : Type} (f : A -> bool) (l : list A) :
  Forall (fun x => f x = true) l -> filter f l = l.
Proof.
  induction 1 as [|x l Hx _ IH]; [reflexivity|].
  cbn [filter]. rewrite Hx, IH. reflexivity.
Qed.

(** Paginating the pages again, joined by line feeds, gives the same pages:
    the joined pages are the content without its blank lines. *)
Theorem paginateContent_of_pages (content : jsstring) :
  contentLines (join [NL] (paginateContent content)) = contentLines content
  /\ paginateContent (join [NL] (paginateContent content))
     = paginateContent content.
Proof.
  assert (H : contentLines (join [NL] (paginateContent content))
              = contentLines content).
  { destruct (paginateContent_break_groups content)
      as (groups & Hpg & _ & Hcat & Hpos & _).
    rewrite Hpg, join_concat, Hcat by assumption.
    destruct (contentLines content) as [|l ls] eqn:E; [reflexivity|].
    rewrite <- E. unfold contentLines at 1.
    rewrite split_join.
    - apply filter_all, contentLines_nonBlank.
    - rewrite E; discriminate.
    - apply contentLines_pieces. }
  split; [exact H|]. unfold paginateContent at 1 3. rewrite H. reflexivity.
Qed.

End PageBreakFacts.

(** ** The modal: the page shown and the navigation *)

Module ModalFacts.
Import JS SubtopicDetailModal PagerFacts PageBreakFacts.

Lemma onContentChange_state (content : jsstring) :
  onContentChange content = Modal (paginateContent content) 1.
Proof. destruct content; reflexivity. Qed.

Lemma onClick_pages (m : modal) (c : click) :
  contentPages (onClick m c) = contentPages m.
Proof.
  unfold onClick.
  destruct (1 <? Z.of_nat (length (contentPages m)))%Z; [|reflexivity].
  destruct c.
  - destruct (currentPageInModal m =? 1)%Z; reflexivity.
  - destruct (currentPageInModal m =? Z.of_nat (length (contentPages m)))%Z;
      reflexivity.
Qed.

Lemma onClick_range (m : modal) (c : click) :
  (1 <= currentPageInModal m
     <= Z.max 1 (Z.of_nat (length (contentPages m))))%Z ->
  (1 <= currentPageInModal (onClick m c)
     <= Z.max 1 (Z.of_nat (length (contentPages m))))%Z.
Proof.
  intros H. unfold onClick, handleNextPage, handlePreviousPage.
  destruct (1 <? Z.of_nat (length (contentPages m)))%Z eqn:E; [|assumption].
  apply Z.ltb_lt in E.
  destruct c.
  - destruct (currentPageInModal m =? 1)%Z; cbn [currentPageInModal]; lia.
  - destruct (currentPageInModal m =? Z.of_nat (length (contentPages m)))%Z;
      cbn [currentPageInModal]; lia.
Qed.

Lemma clicks_invariant (clicks : list click) :
  forall m : modal,
    (1 <= currentPageInModal m
       <= Z.max 1 (Z.of_nat (length (contentPages m))))%Z ->
    contentPages (fold_left onClick clicks m) = contentPages m
    /\ (1 <= currentPageInModal (fold_left onClick clicks m)
          <= Z.max 1 (Z.of_nat (length (contentPages m))))%Z.
Proof.
  induction clicks as [|c clicks IH]; intros m H; cbn [fold_left]; [auto|].
  destruct (IH (onClick m c)) as [H1 H2].
  - rewrite onClick_pages. apply onClick_range, H.
  - rewrite onClick_pages in H1, H2. auto.
Qed.

Lemma currentContent_in_range (pgs : list jsstring) (p : Z) :
  (1 <= p <= Z.of_nat (length pgs))%Z ->
  In (currentContent pgs p) pgs.
Proof.
  intros H. unfold currentContent.
  destruct (p - 1 <? 0)%Z eqn:E; [apply Z.ltb_lt in E; lia|].
  apply nth_In. lia.
Qed.

(** The page shown by the modal.  After the effect has paginated the
    content, whatever buttons are clicked, the pages stay those of the
    content, the current page stays between 1 and the number of pages (it
    is 1 when there is no page), and the text shown is empty, which shows
    the placeholder, exactly when the content has no line that is not
    blank. *)
Theorem modal_shows_a_page (content : jsstring) (clicks : list click) :
  contentPages (fold_left onClick clicks (onContentChange content))
  = paginateContent content
  /\ (1 <= currentPageInModal (fold_left onClick clicks (onContentChange content))
        <= Z.max 1 (Z.of_nat (length (paginateContent content))))%Z
  /\ (currentContent
        (contentPages (fold_left onClick clicks (onContentChange content)))
        (currentPageInModal (fold_left onClick clicks (onContentChange content)))
      = []
      <-> contentLines content = []).
Proof.
  rewrite onContentChange_state.
  destruct (@clicks_invariant clicks (Modal (paginateContent content) 1))
    as [H1 H2]; cbn [contentPages currentPageInModal] in *; [lia|].
  split; [exact H1|]. split; [exact H2|]. rewrite H1.
  destruct (contentLines content) as [|l ls] eqn:E.
  - split; [reflexivity|]. intros _.
    rewrite paginateContent_no_lines by assumption.
    unfold currentContent. destruct (_ <? 0)%Z; [reflexivity|].
    destruct (Z.to_nat _); reflexivity.
  - split; [|discriminate]. intros Hnil. exfalso.
    destruct (@paginateContent_pages content)
      as (front & final & Hpg & _).
    { rewrite E; discriminate. }
    assert (Hlen : length (paginateContent content) = length front + 1).
    { rewrite <- (length_map pageLines), Hpg, length_app. reflexivity. }
    apply (@paginateContent_page_not_nil content
             (currentContent (paginateContent content)
                (currentPageInModal
                   (fold_left onClick clicks
                      (Modal (paginateContent content) 1)))));
      [|assumption].
    apply currentContent_in_range. lia.
Qed.

(** A click moves by one page: Next from a page before the last goes to the
    following page, Previous from a page after the first to the page
    before; Next on the last page and Previous on the first do nothing. *)
Theorem click_moves_one_page (pgs : list jsstring) (p : Z) :
  (1 <= p <= Z.of_nat (length pgs))%Z ->
  onClick (Modal pgs p) ClickNext
  = Modal pgs (if (p =? Z.of_nat (length pgs))%Z then p else p + 1)%Z
  /\ onClick (Modal pgs p) ClickPrevious
     = Modal pgs (if (p =? 1)%Z then p else p - 1)%Z.
Proof.
  intros H. unfold onClick, handleNextPage, handlePreviousPage.
  cbn [contentPages currentPageInModal].
  destruct (1 <? Z.of_nat (length pgs))%Z eqn:E.
  - apply Z.ltb_lt in E. split.
    + destruct (Z.eqb_spec p (Z.of_nat (length pgs))); [reflexivity|].
      f_equal. lia.
    + destruct (Z.eqb_spec p 1); [reflexivity|]. f_equal. lia.
  - apply Z.ltb_ge in E. assert (p = 1%Z) by lia. subst p.
    assert (Z.of_nat (length pgs) = 1%Z) as -> by lia. split; reflexivity.
Qed.

Lemma click_moves_one_page_witness :
  onClick (Modal [lit "a"; lit "b"; lit "c"] 2) ClickNext
  = Modal [lit "a"; lit "b"; lit "c"] 3
  /\ onClick (Modal [lit "a"; lit "b"; lit "c"] 2) ClickPrevious
     = Modal [lit "a"; lit "b"; lit "c"] 1.
Proof.
  apply (@click_moves_one_page [lit "a"; lit "b"; lit "c"] 2).
  cbn [length]. lia.
Defined.

Lemma next_clicks (pgs : list jsstring) (k : nat) :
  forall p : Z,
    (1 <= p)%Z -> (p + Z.of_nat k <= Z.of_nat (length pgs))%Z ->
    fold_left onClick (repeat ClickNext k) (Modal pgs p)
    = Modal pgs (p + Z.of_nat k).
Proof.
  induction k as [|k IH]; intros p H1 H2; cbn [repeat fold_left].
  - f_equal. lia.
  - unfold onClick at 2. cbn [contentPages currentPageInModal].
    destruct (Z.ltb_spec 1 (Z.of_nat (length pgs))); [|lia].
    destruct (Z.eqb_spec p (Z.of_nat (length pgs))); [lia|].
    unfold handleNextPage. rewrite Z.min_l by lia.
    rewrite IH by lia. f_equal. lia.
Qed.

Lemma previous_clicks (pgs : list jsstring) (k : nat) :
  forall p : Z,
    (1 <= p - Z.of_nat k)%Z -> (p <= Z.of_nat (length pgs))%Z ->
    fold_left onClick (repeat ClickPrevious k) (Modal pgs p)
    = Modal pgs (p - Z.of_nat k).
Proof.
  induction k as [|k IH]; intros p H1 H2; cbn [repeat fold_left].
  - f_equal. lia.
  - unfold onClick at 2. cbn [contentPages currentPageInModal].
    destruct (Z.ltb_spec 1 (Z.of_nat (length pgs))); [|lia].
    destruct (Z.eqb_spec p 1); [lia|].
    unfold handlePreviousPage. rewrite Z.max_l by lia.
    rewrite IH by lia. f_equal. lia.
Qed.

(** Every page can be reached: from page 1, [p - 1] clicks on Next lead to
    page [p], and from there [p - 1] clicks on Previous lead back to
    page 1. *)
Theorem every_page_is_reachable (pgs : list jsstring) (p : nat) :
  1 <= p <= length pgs ->
  fold_left onClick (repeat ClickNext (p - 1)) (Modal pgs 1)
  = Modal pgs (Z.of_nat p)
  /\ fold_left onClick (repeat ClickPrevious (p - 1)) (Modal pgs (Z.of_nat p))
     = Modal pgs 1.
Proof.
  intros H. split.
  - rewrite next_clicks by lia. f_equal. lia.
  - rewrite previous_clicks by lia. f_equal. lia.
Qed.

Lemma every_page_is_reachable_witness :
  fold_left onClick (repeat ClickNext 2) (Modal [lit "a"; lit "b"; lit "c"] 1)
  = Modal [lit "a"; lit "b"; lit "c"] 3
  /\ fold_left onClick (repeat ClickPrevious 2)
       (Modal [lit "a"; lit "b"; lit "c"] 3)
     = Modal [lit "a"; lit "b"; lit "c"] 1.
Proof.
  apply (@every_page_is_reachable [lit "a"; lit "b"; lit "c"] 3).
  cbn [length]. lia.
Defined.

End ModalFacts.

(** ** The words of the patterns *)

Module PatternFacts.
Import JS Regex RegexFacts.

Lemma Matches_Star_Class (p : char -> bool) (s : jsstring) :
  Matches (Star (Class p)) s <-> forallb p s = true.
Proof.
  split.
  - intros H. remember (Star (Class p)) as r eqn:Er.
    induction H as [| | | | | |r0 s1 s2 H1 _ _ IH2]; try discriminate.
    + reflexivity.
    + injection Er as ->.
      apply Matches_Class_inv in H1 as (c & -> & Hc).
      cbn [app forallb]. rewrite Hc, IH2; reflexivity.
  - induction s as [|c s IH]; cbn [forallb]; intros H.
    + constructor.
    + apply andb_true_iff in H as [Hc Hs].
      apply (MStarCons (MClass p c Hc) (IH Hs)).
Qed.

Lemma Matches_plus_Class (p : char -> bool) (s : jsstring) :
  Matches (plus (Class p)) s <-> s <> [] /\ forallb p s = true.
Proof.
  unfold plus. split.
  - intros H. apply Matches_Seq_inv in H as (s1 & s2 & -> & H1 & H2).
    apply Matches_Class_inv in H1 as (c & -> & Hc).
    apply Matches_Star_Class in H2.
    split; [discriminate|]. cbn [app forallb]. rewrite Hc, H2. reflexivity.
  - intros [Hne H]. destruct s as [|c s]; [congruence|].
    cbn [forallb] in H. apply andb_true_iff in H as [Hc Hs].
    apply (MSeq (MClass p c Hc)). apply Matches_Star_Class, Hs.
Qed.

Lemma Matches_chr (c : char) (s : jsstring) : Matches (chr c) s <-> s = [c].
Proof.
  unfold chr. split.
  - intros H. apply Matches_Class_inv in H as (d & -> & E).
    apply N.eqb_eq in E; subst; reflexivity.
  - intros ->. constructor. apply N.eqb_refl.
Qed.

(** The words of a literal under the [i] flag: the strings with the same
    upper case. *)
Lemma Matches_wordI (w : jsstring) : forall s : jsstring,
  Matches (wordI w) s <-> map canonicalize s = map canonicalize w.
Proof.
  induction w as [|c w IH]; intros s; cbn [wordI map].
  - split.
    + intros H. apply Matches_Eps_inv in H. subst. reflexivity.
    + intros H. destruct s; [constructor | discriminate].
  - split.
    + intros H. apply Matches_Seq_inv in H as (s1 & s2 & -> & H1 & H2).
      apply Matches_Class_inv in H1 as (d & -> & E).
      apply N.eqb_eq in E. apply IH in H2.
      cbn [app map]. rewrite E, H2. reflexivity.
    + intros H. destruct s as [|d s]; [discriminate|].
      cbn [map] in H. injection H as Hd Hs.
      change (d :: s) with ([d] ++ s). apply MSeq.
      * constructor. apply N.eqb_eq. assumption.
      * apply IH. assumption.
Qed.

Lemma Matches_opt (r : regex) (s : jsstring) :
  Matches (opt r) s <-> Matches r s \/ s = [].
Proof.
  unfold opt. split.
  - intros H. apply Matches_Alt_inv in H as [H | H]; [left; assumption|].
    right. apply Matches_Eps_inv, H.
  - intros [H | ->]; [apply MAltL, H | apply MAltR; constructor].
Qed.

Lemma Matches_Seq_iff (r1 r2 : regex) (s : jsstring) :
  Matches (Seq r1 r2) s <->
  exists s1 s2, s = s1 ++ s2 /\ Matches r1 s1 /\ Matches r2 s2.
Proof.
  split; [apply Matches_Seq_inv|].
  intros (s1 & s2 & -> & H1 & H2). apply (MSeq H1 H2).
Qed.

Lemma Matches_Alt_iff (r1 r2 : regex) (s : jsstring) :
  Matches (Alt r1 r2) s <-> Matches r1 s \/ Matches r2 s.
Proof.
  split; [apply Matches_Alt_inv|].
  intros [H | H]; [apply MAltL | apply MAltR]; assumption.
Qed.

(** An ASCII letter and the code units with the same upper case. *)
Lemma canonicalize_upper (x u : char) :
  (65 <= u <= 90)%N -> canonicalize x = u -> x = u \/ x = (u + 32)%N.
Proof.
  unfold canonicalize. intros Hu.
  destruct ((97 <=? x) && (x <=? 122))%N eqn:E.
  - apply andb_true_iff in E as [E1 E2].
    apply N.leb_le in E1, E2. intros H. right. lia.
  - intros H. left. assumption.
Qed.

Lemma isSpace_range (c : char) :
  isSpace c = true -> (c <= 32 \/ 160 <= c)%N.
Proof.
  unfold isSpace, isWhiteSpace, isLineTerminator.
  rewrite !orb_true_iff, !andb_true_iff, !N.eqb_eq, !N.leb_le. lia.
Qed.

Lemma not_space_in_range (c : char) :
  (33 <= c <= 159)%N -> isSpace c = false.
Proof.
  intros H. destruct (isSpace c) eqn:E; [|reflexivity].
  apply isSpace_range in E. lia.
Qed.

End PatternFacts.

(** ** The sections of [parseAnalysis] *)

Module SectionFacts.
Import JS Regex JSFacts RegexFacts PatternFacts TrimFacts AnalysisModal ParserFacts.

(** *** The three trigger patterns, word by word *)

Lemma keywordHeading_words (line : jsstring) :
  Matches keywordHeading line <->
  exists w colon sp,
    line = w ++ colon ++ sp
    /\ isKeyword w
    /\ (colon = [] \/ colon = [code ":"])
    /\ forallb isSpace sp = true.
Proof.
  unfold keywordHeading, isKeyword, keywords, ws.
  rewrite Matches_Seq_iff. split.
  - intros (w & s2 & -> & Hw & H2).
    apply Matches_Seq_iff in H2 as (colon & sp & -> & Hc & Hsp).
    apply Matches_opt in Hc. rewrite Matches_chr in Hc.
    apply Matches_Star_Class in Hsp.
    exists w, colon, sp. split; [reflexivity|].
    split; [|split; [tauto | assumption]].
    rewrite !Matches_Alt_iff, !Matches_wordI in Hw.
    cbn [map In]. intuition auto.
  - intros (w & colon & sp & -> & Hw & Hc & Hsp).
    exists w, (colon ++ sp). split; [reflexivity|]. split.
    + rewrite !Matches_Alt_iff, !Matches_wordI.
      cbn [map In] in Hw. intuition auto.
    + apply Matches_Seq_iff. exists colon, sp. split; [reflexivity|]. split.
      * apply Matches_opt. rewrite Matches_chr. tauto.
      * apply Matches_Star_Class. assumption.
Qed.

Lemma numberedStart_words (s : jsstring) :
  Matches numberedStart s <->
  exists ds w,
    s = ds ++ [code "."; w]
    /\ ds <> [] /\ forallb isDigit ds = true /\ isSpace w = true.
Proof.
  unfold numberedStart, digit, ws. rewrite Matches_Seq_iff. split.
  - intros (ds & s2 & -> & Hds & H2).
    apply Matches_plus_Class in Hds as [Hne Hds].
    apply Matches_Seq_iff in H2 as (d & t & -> & Hd & Ht).
    apply Matches_chr in Hd. subst d.
    apply Matches_Class_inv in Ht as (w & -> & Hw).
    exists ds, w. auto.
  - intros (ds & w & -> & Hne & Hds & Hw).
    exists ds, [code "."; w]. split; [reflexivity|]. split.
    + apply Matches_plus_Class. auto.
    + apply Matches_Seq_iff. exists [code "."], [w].
      split; [reflexivity|]. split; [apply Matches_chr; reflexivity|].
      constructor. assumption.
Qed.

Lemma bulletStart_words (s : jsstring) :
  Matches bulletStart s <->
  exists w, s = [code "-"; code " "; w] /\ isSpace w = true.
Proof.
  unfold bulletStart, ws. rewrite Matches_Seq_iff. split.
  - intros (d & s2 & -> & Hd & H2).
    apply Matches_chr in Hd. subst d.
    apply Matches_Seq_iff in H2 as (b & t & -> & Hb & Ht).
    apply Matches_chr in Hb. subst b.
    apply Matches_Class_inv in Ht as (w & -> & Hw).
    exists w. auto.
  - intros (w & -> & Hw).
    exists [code "-"], [code " "; w]. split; [reflexivity|].
    split; [apply Matches_chr; reflexivity|].
    apply Matches_Seq_iff. exists [code " "], [w].
    split; [reflexivity|]. split; [apply Matches_chr; reflexivity|].
    constructor. assumption.
Qed.

Lemma isTrigger_words (line : jsstring) :
  isTrigger line = true <->
  Matches keywordHeading line
  \/ (exists s1 s2, line = s1 ++ s2 /\ Matches numberedStart s1)
  \/ (exists s1 s2, line = s1 ++ s2 /\ Matches bulletStart s1).
Proof.
  unfold isTrigger.
  rewrite !orb_true_iff, matchWhole_spec, !matchPrefix_spec. tauto.
Qed.

(** The lines that open a section: a keyword in any case, then an optional
    colon and white space to the end of the line; or digits, a dot and a
    white space; or a dash, a space and one more white space. *)
Theorem trigger_forms (line : jsstring) :
  isTrigger line = true <->
  (exists w colon sp,
      line = w ++ colon ++ sp
      /\ isKeyword w
      /\ (colon = [] \/ colon = [code ":"])
      /\ forallb isSpace sp = true)
  \/ (exists ds w rest,
        line = ds ++ code "." :: w :: rest
        /\ ds <> [] /\ forallb isDigit ds = true /\ isSpace w = true)
  \/ (exists w rest,
        line = code "-" :: code " " :: w :: rest /\ isSpace w = true).
Proof.
  rewrite isTrigger_words, keywordHeading_words.
  split.
  - intros [H | [(s1 & s2 & -> & H) | (s1 & s2 & -> & H)]].
    + left. exact H.
    + right. left. apply numberedStart_words in H as (ds & w & -> & H).
      exists ds, w, s2. rewrite <- app_assoc. auto.
    + right. right. apply bulletStart_words in H as (w & -> & H).
      exists w, s2. auto.
  - intros [H | [(ds & w & rest & -> & H) | (w & rest & -> & H)]].
    + left. exact H.
    + right. left. exists (ds ++ [code "."; w]), rest.
      rewrite <- app_assoc. split; [reflexivity|].
      apply numberedStart_words. exists ds, w. auto.
    + right. right. exists [code "-"; code " "; w], rest.
      split; [reflexivity|]. apply bulletStart_words. exists w. auto.
Qed.

(** *** Keywords *)

Lemma canon_word_props (w u : jsstring) (a : char) (u' : jsstring) (b : char) :
  map canonicalize w = u ->
  u = a :: u' -> (65 <= a <= 90)%N ->
  last u 0%N = b -> (65 <= b <= 90)%N ->
  forallb (fun c => negb (c =? code ":")%N) u = true ->
  (exists x w', w = x :: w' /\ (65 <= x <= 122)%N)
  /\ (exists w' y, w = w' ++ [y] /\ (65 <= y <= 122)%N)
  /\ ~ In (code ":") w.
Proof.
  intros Hmap Hu Ha Hlast Hb Hcolon.
  assert (Hne : w <> []).
  { intros ->. subst u. discriminate. }
  split; [|split].
  - destruct w as [|x w']; [congruence|]. exists x, w'. split; [reflexivity|].
    subst u. cbn [map] in Hu. injection Hu as Hx _.
    destruct (canonicalize_upper x Ha Hx); lia.
  - destruct (exists_last Hne) as (w' & y & ->). exists w', y.
    split; [reflexivity|].
    rewrite map_app in Hmap. cbn [map] in Hmap. subst u.
    rewrite last_last in Hlast.
    destruct (canonicalize_upper y Hb Hlast); lia.
  - intros Hin. apply (in_map canonicalize) in Hin. rewrite Hmap in Hin.
    rewrite forallb_forall in Hcolon. specialize (Hcolon _ Hin).
    vm_compute in Hcolon. discriminate.
Qed.

Lemma isKeyword_props (w : jsstring) :
  isKeyword w ->
  (exists x w', w = x :: w' /\ (65 <= x <= 122)%N)
  /\ (exists w' y, w = w' ++ [y] /\ (65 <= y <= 122)%N)
  /\ ~ In (code ":") w.
Proof.
  unfold isKeyword, keywords. cbn [map In].
  intros [H | [H | [H | [H | []]]]]; symmetry in H;
    (eapply canon_word_props;
     [exact H | vm_compute; reflexivity | lia
      | vm_compute; reflexivity | lia | vm_compute; reflexivity]).
Qed.

Lemma removeFirst_app_notin (c : char) (a b : jsstring) :
  ~ In c a -> removeFirst c (a ++ b) = a ++ removeFirst c b.
Proof.
  induction a as [|d a IH]; intros H; [reflexivity|].
  cbn [app removeFirst]. destruct (N.eqb_spec d c).
  - subst. exfalso. apply H. left. reflexivity.
  - rewrite IH; [reflexivity|]. intros Hin. apply H. right. assumption.
Qed.

Lemma removeFirst_spaces (sp : jsstring) :
  forallb isSpace sp = true -> removeFirst (code ":") sp = sp.
Proof.
  induction sp as [|d sp IH]; [reflexivity|].
  cbn [forallb removeFirst]. intros H. apply andb_true_iff in H as [Hd Hsp].
  destruct (N.eqb_spec d (code ":")); [subst; discriminate|].
  rewrite IH by assumption. reflexivity.
Qed.

Lemma trimStart_app_spaces (a b : jsstring) :
  forallb isSpace a = true -> trimStart (a ++ b) = trimStart b.
Proof.
  induction a as [|d a IH]; [reflexivity|].
  cbn [forallb app trimStart]. intros H. apply andb_true_iff in H as [Hd Ha].
  rewrite Hd. apply IH, Ha.
Qed.

Lemma trimEnd_app_spaces (s sp : jsstring) :
  forallb isSpace sp = true -> trimEnd (s ++ sp) = trimEnd s.
Proof.
  intros H. unfold trimEnd. rewrite rev_app_distr, trimStart_app_spaces;
    [reflexivity|]. rewrite forallb_rev. assumption.
Qed.

Lemma titleOf_keyword (w colon sp : jsstring) :
  isKeyword w ->
  colon = [] \/ colon = [code ":"] ->
  forallb isSpace sp = true ->
  titleOf (w ++ colon ++ sp) = w.
Proof.
  intros Hw Hc Hsp.
  destruct (isKeyword_props Hw) as ((x & w1 & E1 & Hx) & (w2 & y & E2 & Hy) & Hno).
  unfold titleOf. rewrite removeFirst_app_notin by assumption.
  assert (E : removeFirst (code ":") (colon ++ sp) = sp).
  { destruct Hc as [-> | ->].
    - apply removeFirst_spaces, Hsp.
    - reflexivity. }
  rewrite E. unfold trim.
  assert (Hstart : trimStart (w ++ sp) = w ++ sp).
  { rewrite E1. cbn [app]. apply trimStart_fixed, not_space_in_range. lia. }
  rewrite Hstart, trimEnd_app_spaces by assumption.
  rewrite E2. apply trimEnd_fixed, not_space_in_range. lia.
Qed.

(** The title of a section opened by a keyword line is the keyword as it
    is written on the line: the colon and the white space after it are
    removed, the case is kept. *)
Theorem keyword_title (w colon sp : jsstring) :
  isKeyword w ->
  colon = [] \/ colon = [code ":"] ->
  forallb isSpace sp = true ->
  isTrigger (w ++ colon ++ sp) = true
  /\ titleOf (w ++ colon ++ sp) = w.
Proof.
  intros Hw Hc Hsp. split; [|apply titleOf_keyword; assumption].
  apply isTrigger_words. left.
  apply keywordHeading_words. exists w, colon, sp. auto.
Qed.

Lemma keyword_title_witness :
  isTrigger (lit "Key TOPICS" ++ [code ":"] ++ lit "  ") = true
  /\ titleOf (lit "Key TOPICS" ++ [code ":"] ++ lit "  ") = lit "Key TOPICS".
Proof.
  apply (@keyword_title (lit "Key TOPICS") [code ":"] (lit "  ")).
  - unfold isKeyword. vm_compute. right. left. reflexivity.
  - right. reflexivity.
  - vm_compute. reflexivity.
Defined.

(** *** The first code unit of a trigger *)

Lemma isTrigger_head (line : jsstring) :
  isTrigger line = true ->
  exists c rest,
    line = c :: rest /\ isSpace c = false /\ c <> code ":"
    /\ (c = code "-" -> exists w rest', rest = code " " :: w :: rest'
                                        /\ isSpace w = true).
Proof.
  intros H. apply isTrigger_words in H as [H | [(s1 & s2 & -> & H) | (s1 & s2 & -> & H)]];
    [apply keywordHeading_words in H as (w & colon & sp & -> & Hw & _)
    |apply numberedStart_words in H as (ds & w & -> & Hne & Hds & _);
     rewrite <- app_assoc; cbn [app]; set (rest := s2)
    |apply bulletStart_words in H as (w & -> & Hw);
     cbn [app]; set (rest := s2)].
  - destruct (isKeyword_props Hw) as ((x & w1 & -> & Hx) & _).
    exists x, (w1 ++ colon ++ sp). split; [reflexivity|].
    split; [apply not_space_in_range; lia|].
    split; [vm_compute; intros ->; lia|].
    intros ->. change (code "-") with 45%N in Hx. lia.
  - destruct ds as [|d ds]; [congruence|].
    cbn [forallb] in Hds. apply andb_true_iff in Hds as [Hd _].
    unfold isDigit in Hd. apply andb_true_iff in Hd as [H1 H2].
    apply N.leb_le in H1, H2.
    exists d, (ds ++ code "." :: w :: rest). split; [reflexivity|].
    split; [apply not_space_in_range; lia|].
    split; [vm_compute; intros ->; lia|].
    intros ->. change (code "-") with 45%N in H1. lia.
  - exists (code "-"), (code " " :: w :: rest). split; [reflexivity|].
    split; [reflexivity|]. split; [discriminate|].
    intros _. exists w, rest. auto.
Qed.

(** A dash, one space and then text, the usual bullet of Markdown, does
    not open a section: the pattern asks for a second white space. *)
Theorem markdown_bullet_is_no_trigger (c : char) (rest : jsstring) :
  isSpace c = false ->
  isTrigger (code "-" :: code " " :: c :: rest) = false.
Proof.
  intros Hc. destruct (isTrigger _) eqn:E; [|reflexivity].
  apply isTrigger_head in E as (d & rest' & [= <- <-] & _ & _ & H).
  destruct (H eq_refl) as (w & rest'' & [= <- _] & Hw). congruence.
Qed.

Lemma markdown_bullet_is_no_trigger_witness :
  isTrigger (code "-" :: code " " :: lit "item") = false.
Proof.
  apply (@markdown_bullet_is_no_trigger (code "i") (lit "tem")).
  vm_compute. reflexivity.
Defined.

Lemma titleOf_not_nil (line : jsstring) :
  isTrigger line = true -> titleOf line <> [].
Proof.
  intros H. apply isTrigger_head in H as (c & rest & -> & Hc & Hcolon & _).
  unfold titleOf. cbn [removeFirst].
  destruct (N.eqb_spec c (code ":")); [congruence|].
  intros E. apply trim_nil_iff in E. cbn [forallb] in E.
  rewrite Hc in E. discriminate.
Qed.

(** *** The shape of the result *)

(** An array of lines has no trigger or splits at its first trigger. *)
Lemma first_trigger_split (lines : list jsstring) :
  Forall (fun line => isTrigger line = false) lines
  \/ exists pre t rest,
       lines = pre ++ t :: rest
       /\ Forall (fun line => isTrigger line = false) pre
       /\ isTrigger t = true.
Proof.
  induction lines as [|l lines IH]; [left; constructor|].
  destruct (isTrigger l) eqn:E.
  - right. exists [], l, lines. repeat split; auto.
  - destruct IH as [IH | (pre & t & rest & -> & Hpre & Ht)].
    + left. constructor; assumption.
    + right. exists (l :: pre), t, rest. repeat split; auto.
Qed.

Lemma filter_none {A : Type} (f : A -> bool) (l : list A) :
  Forall (fun x => f x = false) l -> filter f l = [].
Proof.
  induction 1 as [|x l Hx _ IH]; [reflexivity|].
  cbn [filter]. rewrite Hx. exact IH.
Qed.

(** The titles and the contents of the sections of an array of lines. *)
Lemma parseLines_shape (lines : list jsstring) :
  lines <> [] ->
  (Forall (fun line => isTrigger line = false) lines
   /\ parseLines lines = [Section_ (lit "Analysis") lines])
  \/ (filter isTrigger lines <> []
      /\ map title (parseLines lines) = map titleOf (filter isTrigger lines)
      /\ exists pre rest,
           lines = pre ++ rest
           /\ Forall (fun line => isTrigger line = false) pre
           /\ flat_map content (parseLines lines)
              = filter (fun l => negb (isTrigger l)) rest).
Proof.
  intros Hne.
  destruct (first_trigger_split lines) as [Hno | (pre & t & rest & -> & Hpre & Ht)].
  - left. split; [assumption | apply parseLines_no_trigger; assumption].
  - right.
    destruct (@parseLines_first_trigger pre t rest Hpre Ht) as (_ & H2 & H3).
    assert (Hf : filter isTrigger (pre ++ t :: rest) = t :: filter isTrigger rest).
    { rewrite filter_app, (filter_none _ Hpre). cbn [filter app].
      rewrite Ht. reflexivity. }
    rewrite Hf. split; [discriminate|]. split; [exact H3|].
    exists pre, (t :: rest). split; [reflexivity|]. split; [assumption|].
    rewrite H2. cbn [filter]. rewrite Ht. reflexivity.
Qed.

(** When no line is a trigger, the whole text is one section: its title is
    ["Analysis"] and its content the lines of the text that are not blank,
    in their order. *)
Theorem parseAnalysis_fallback (text : jsstring) :
  textLines text <> [] ->
  Forall (fun line => isTrigger line = false) (textLines text) ->
  parseAnalysis text = [Section_ (lit "Analysis") (textLines text)].
Proof.
  intros Hne Hno. unfold parseAnalysis. apply parseLines_no_trigger; assumption.
Qed.

Lemma parseAnalysis_fallback_witness :
  parseAnalysis (lit "- one\n- two")
  = [Section_ (lit "Analysis") (textLines (lit "- one\n- two"))].
Proof.
  apply (@parseAnalysis_fallback (lit "- one\n- two")).
  - vm_compute. discriminate.
  - vm_compute. repeat (constructor; [reflexivity|]). constructor.
Defined.

(** When some line is a trigger, there is one section for each trigger
    line, in the order of the lines, its title made from the trigger line;
    and no line of a content is a trigger. *)
Theorem sections_follow_triggers (text : jsstring) :
  existsb isTrigger (textLines text) = true ->
  map title (parseAnalysis text)
  = map titleOf (filter isTrigger (textLines text))
  /\ length (parseAnalysis text) = length (filter isTrigger (textLines text))
  /\ Forall (fun s => Forall (fun line => isTrigger line = false) (content s))
       (parseAnalysis text).
Proof.
  intros Hex. unfold parseAnalysis.
  assert (Hne : textLines text <> []).
  { intros E. rewrite E in Hex. discriminate. }
  destruct (parseLines_shape Hne)
    as [(Hno & _) | (_ & Htitles & pre & rest & _ & _ & Hcontent)].
  - exfalso. apply existsb_exists in Hex as (l & Hin & Hl).
    rewrite Forall_forall in Hno. rewrite (Hno _ Hin) in Hl. discriminate.
  - split; [exact Htitles|]. split.
    + rewrite <- (length_map title), Htitles, length_map. reflexivity.
    + apply (proj1 (Forall_flat_map _ _ content)). rewrite Hcontent.
      apply Forall_forall. intros l Hin. apply filter_In in Hin as [_ Hl].
      apply negb_true_iff. exact Hl.
Qed.

Lemma sections_follow_triggers_witness :
  map title (parseAnalysis preamble) = [lit "Summary"]
  /\ length (parseAnalysis preamble) = 1.
Proof.
  destruct (@sections_follow_triggers preamble) as (H1 & H2 & _).
  - vm_compute. reflexivity.
  - split; [rewrite H1 | rewrite H2]; vm_compute; reflexivity.
Defined.

(** When the first line that is not blank is a trigger, no line is lost:
    the trigger lines give the titles, all the other lines are the
    contents, in the order of the text. *)
Theorem first_line_trigger_keeps_all (text : jsstring) (t : jsstring)
    (rest : list jsstring) :
  textLines text = t :: rest ->
  isTrigger t = true ->
  flat_map content (parseAnalysis text)
  = filter (fun l => negb (isTrigger l)) (textLines text)
  /\ map title (parseAnalysis text)
     = map titleOf (filter isTrigger (textLines text))
  /\ length (parseAnalysis text) + length (flat_map content (parseAnalysis text))
     = length (textLines text).
Proof.
  intros E Ht. unfold parseAnalysis. rewrite E.
  destruct (@parseLines_first_trigger [] t rest (Forall_nil _) Ht)
    as (_ & H2 & H3).
  cbn [app] in H2, H3. cbn [filter]. rewrite Ht. cbn [negb].
  split; [exact H2|]. split; [exact H3|].
  rewrite <- (length_map title), H2, H3. cbn [map length]. rewrite length_map.
  pose proof (filter_split_length isTrigger rest). lia.
Qed.

Lemma first_line_trigger_keeps_all_witness :
  length (parseAnalysis (lit "Summary:\nLine1\n1. First\nLine2"))
  + length (flat_map content (parseAnalysis (lit "Summary:\nLine1\n1. First\nLine2")))
  = length (textLines (lit "Summary:\nLine1\n1. First\nLine2")).
Proof.
  apply (@first_line_trigger_keeps_all (lit "Summary:\nLine1\n1. First\nLine2")
           (lit "Summary:") [lit "Line1"; lit "1. First"; lit "Line2"]).
  - vm_compute. reflexivity.
  - vm_compute. reflexivity.
Defined.

(** Every title is a trimmed, non-empty string: it does not start or end
    with white space. *)
Theorem section_titles (text : jsstring) :
  Forall (fun s =>
            title s <> []
            /\ (forall c t, title s = c :: t -> isSpace c = false)
            /\ (forall t c, title s = t ++ [c] -> isSpace c = false))
         (parseAnalysis text).
Proof.
  assert (Hmap : forall ss : list section,
             Forall (fun t => t <> []
                              /\ (forall c t', t = c :: t' -> isSpace c = false)
                              /\ (forall t' c, t = t' ++ [c] -> isSpace c = false))
                    (map title ss) ->
             Forall (fun s => title s <> []
                              /\ (forall c t, title s = c :: t -> isSpace c = false)
                              /\ (forall t c, title s = t ++ [c] -> isSpace c = false))
                    ss).
  { intros ss H. apply Forall_map in H. exact H. }
  apply Hmap. unfold parseAnalysis.
  destruct (textLines text) as [|l ls] eqn:E; [constructor|]. rewrite <- E.
  assert (Hne : textLines text <> []) by (rewrite E; discriminate).
  destruct (parseLines_shape Hne) as [(_ & ->) | (_ & -> & _)].
  - cbn [map title]. constructor; [|constructor].
    split; [discriminate|]. split.
    + intros c t [= <- _]. reflexivity.
    + intros t c H. change (lit "Analysis") with (lit "Analysi" ++ [code "s"]) in H.
      apply app_inj_tail in H as [_ <-]. reflexivity.
  - apply Forall_map. apply Forall_forall. intros line Hin.
    apply filter_In in Hin as [_ Ht].
    split; [apply titleOf_not_nil, Ht|]. split.
    + intros c t. apply trim_head.
    + intros t c. apply trim_last.
Qed.

(** *** No output *)

Lemma split_all_space (s : jsstring) :
  Forall (fun piece => forallb isSpace piece = true) (split NL s)
  <-> forallb isSpace s = true.
Proof.
  induction s as [|c s IH]; cbn [split forallb].
  - split; [reflexivity | intros _; repeat constructor].
  - destruct (N.eqb_spec c NL) as [-> | Hc].
    + change (isSpace NL) with true. cbn [andb]. rewrite <- IH.
      split; [intros H; inversion H; assumption | intros H; constructor; auto].
    + rewrite andb_true_iff, <- IH.
      destruct (split NL s) as [|piece rest] eqn:E.
      * exfalso. exact (split_not_nil _ _ E).
      * split.
        -- intros H. inversion H as [|? ? Hp Hrest]; subst.
           cbn [forallb] in Hp. apply andb_true_iff in Hp as [Hc' Hp].
           split; [assumption | constructor; assumption].
        -- intros [Hc' H]. inversion H; subst. constructor; [|assumption].
           cbn [forallb]. apply andb_true_iff. auto.
Qed.

Lemma lines_nil_iff (text : jsstring) :
  filter nonBlank (split NL text) = [] <-> forallb isSpace text = true.
Proof.
  rewrite <- split_all_space.
  induction (split NL text) as [|line lines IH]; cbn [filter].
  - split; [constructor | reflexivity].
  - unfold nonBlank at 1. destruct (trim line) as [|c t] eqn:E; cbn [str_eqb negb].
    + apply trim_nil_iff in E. rewrite IH. split.
      * intros H. constructor; assumption.
      * intros H. inversion H; assumption.
    + split; [discriminate|]. intros H. inversion H as [|? ? Hl _]; subst.
      apply trim_nil_iff in Hl. congruence.
Qed.

Lemma parseAnalysis_nil_iff (text : jsstring) :
  parseAnalysis text = [] <-> textLines text = [].
Proof.
  unfold parseAnalysis. split.
  - intros H. destruct (textLines text) as [|l ls] eqn:E; [reflexivity|].
    exfalso. rewrite <- E in H.
    assert (Hne : textLines text <> []) by (rewrite E; discriminate).
    destruct (parseLines_shape Hne) as [(_ & H1) | (Hf & H1 & _)].
    + rewrite H1 in H. discriminate.
    + rewrite H in H1. cbn [map] in H1.
      destruct (filter isTrigger (textLines text)); [congruence | discriminate].
  - intros ->. reflexivity.
Qed.

Lemma paginateContent_nil_iff (text : jsstring) :
  SubtopicDetailModal.paginateContent text = []
  <-> SubtopicDetailModal.contentLines text = [].
Proof.
  split; [|apply PagerFacts.paginateContent_no_lines].
  intros H.
  destruct (SubtopicDetailModal.contentLines text) as [|l ls] eqn:E;
    [reflexivity|]. exfalso.
  destruct (@PagerFacts.paginateContent_pages text)
    as (front & final & Hpg & _).
  { rewrite E; discriminate. }
  rewrite H in Hpg. cbn [map] in Hpg. destruct front; discriminate.
Qed.

(** [paginateContent] returns no page, and [parseAnalysis] no section,
    exactly when the text consists of white space only (the empty text
    included); the modal of the analysis then shows its raw text instead of
    sections. *)
Theorem no_output_iff_white_space (text : jsstring) :
  (SubtopicDetailModal.paginateContent text = []
   <-> forallb isSpace text = true)
  /\ (parseAnalysis text = [] <-> forallb isSpace text = true).
Proof.
  split.
  - rewrite paginateContent_nil_iff. apply lines_nil_iff.
  - rewrite parseAnalysis_nil_iff. apply lines_nil_iff.
Qed.

(** The lines that [filter] keeps are those with a code unit that is not
    white space. *)
Theorem nonBlank_iff (line : jsstring) :
  nonBlank line = true <-> exists c, In c line /\ isSpace c = false.
Proof.
  unfold nonBlank. split.
  - intros H. destruct (trim line) as [|c t] eqn:E; [discriminate|].
    assert (Hn : forallb isSpace line <> true).
    { intros Hall. apply trim_nil_iff in Hall. congruence. }
    apply not_true_is_false in Hn.
    rewrite <- (negb_involutive (forallb isSpace line)) in Hn.
    apply negb_false_iff in Hn. rewrite <- existsb_negb_forallb in Hn.
    apply existsb_exists in Hn as (d & Hin & Hd).
    exists d. split; [assumption | apply negb_true_iff, Hd].
  - intros (c & Hin & Hc).
    destruct (trim line) as [|d t] eqn:E; [|reflexivity].
    apply trim_nil_iff in E. rewrite forallb_forall in E.
    rewrite (E _ Hin) in Hc. discriminate.
Qed.

End SectionFacts.

(** ** The paged lists of the learning page *)

Module LearningPageFacts.
Import JS LearningPage.

Lemma slice_nat {A : Type} (a b : nat) (l : list A) :
  a <= b ->
  slice (Z.of_nat a) (Z.of_nat b) l = firstn (b - a) (skipn a l).
Proof.
  intros Hab. unfold slice. cbv zeta.
  destruct (Z.ltb_spec (Z.of_nat a) 0); [lia|].
  destruct (Z.ltb_spec (Z.of_nat b) 0); [lia|].
  destruct (le_lt_dec (length l) a) as [Hfar | Hnear].
  - rewrite (Z.min_r (Z.of_nat a)) by lia. rewrite Nat2Z.id.
    rewrite (skipn_all2 l (n := length l)) by lia.
    rewrite (skipn_all2 l (n := a)) by lia.
    rewrite !firstn_nil. reflexivity.
  - rewrite (Z.min_l (Z.of_nat a)) by lia. rewrite Nat2Z.id.
    destruct (le_lt_dec b (length l)) as [Hin | Hout].
    + rewrite (Z.min_l (Z.of_nat b)) by lia. f_equal. lia.
    + rewrite (Z.min_r (Z.of_nat b)) by lia.
      rewrite !firstn_all2; [reflexivity | |]; rewrite length_skipn; lia.
Qed.

(** The items of page [i + 1], for a page size [k]. *)
Lemma currentItems_nat {A : Type} (k i : nat) (items : list A) :
  currentItems (Z.of_nat k) (Z.of_nat i + 1) items
  = firstn k (skipn (i * k) items).
Proof.
  unfold currentItems.
  replace (((Z.of_nat i + 1) * Z.of_nat k)%Z) with (Z.of_nat (i * k + k)) by lia.
  replace ((Z.of_nat (i * k + k) - Z.of_nat k)%Z) with (Z.of_nat (i * k)) by lia.
  rewrite slice_nat by lia. f_equal. lia.
Qed.

Lemma firstn_plus {A : Type} (a b : nat) (l : list A) :
  firstn (a + b) l = firstn a l ++ firstn b (skipn a l).
Proof.
  revert l. induction a as [|a IH]; intros l; [reflexivity|].
  destruct l as [|x l]; cbn [Nat.add firstn skipn app].
  - rewrite firstn_nil. reflexivity.
  - rewrite IH. reflexivity.
Qed.

Lemma concat_pages {A : Type} (k n : nat) (l : list A) :
  concat (map (fun i => firstn k (skipn (i * k) l)) (seq 0 n))
  = firstn (n * k) l.
Proof.
  induction n as [|n IH]; [reflexivity|].
  rewrite seq_S, map_app, concat_app, IH. cbn [map concat Nat.add].
  rewrite app_nil_r. replace (S n * k) with (n * k + k) by lia.
  symmetry. apply firstn_plus.
Qed.

(** The number of pages, as a natural number, and what it is enough for. *)
Lemma totalPages_nat {A : Type} (k : nat) (items : list A) :
  0 < k ->
  exists n,
    totalPages (Z.of_nat k) items = Z.of_nat n
    /\ length items <= n * k
    /\ n * k < length items + k.
Proof.
  intros Hk. unfold totalPages, ceilDiv.
  set (len := Z.of_nat (length items)).
  assert (Hd := Z.div_mod (len + Z.of_nat k - 1) (Z.of_nat k) ltac:(lia)).
  assert (Hm := Z.mod_pos_bound (len + Z.of_nat k - 1) (Z.of_nat k) ltac:(lia)).
  set (q := ((len + Z.of_nat k - 1) / Z.of_nat k)%Z) in *.
  assert (Hq : (0 <= q)%Z) by (apply Z.div_pos; lia).
  exists (Z.to_nat q). rewrite Z2Nat.id by assumption.
  split; [reflexivity|]. subst len. nia.
Qed.

(** The pages of the buttons, one after the other, are the list: every item
    is on exactly one page, in the order of the list. *)
Theorem pages_partition_items {A : Type} (perPage : Z) (items : list A) :
  (0 < perPage)%Z ->
  concat (map (fun pageNumber => currentItems perPage pageNumber items)
              (pageNumbers (totalPages perPage items)))
  = items.
Proof.
  intros Hpos.
  rewrite <- (Z2Nat.id perPage) by lia.
  set (k := Z.to_nat perPage). assert (Hk : 0 < k) by lia.
  destruct (totalPages_nat items Hk) as (n & -> & Hn & _).
  unfold pageNumbers. rewrite Nat2Z.id, map_map.
  rewrite (map_ext _ (fun i => firstn k (skipn (i * k) items)))
    by (intros i; apply currentItems_nat).
  rewrite concat_pages. apply firstn_all2. assumption.
Qed.

Lemma pages_partition_items_witness :
  concat (map (fun pageNumber =>
                 currentItems itemsPerPageQnA pageNumber (seq 1 12))
              (pageNumbers (totalPages itemsPerPageQnA (seq 1 12))))
  = seq 1 12.
Proof.
  apply (@pages_partition_items nat itemsPerPageQnA (seq 1 12)).
  unfold itemsPerPageQnA. lia.
Defined.

(** A page between 1 and the number of pages shows at least one item and at
    most a page full; a page after the last shows nothing. *)
Theorem page_items_bounds {A : Type} (perPage currentPage : Z)
    (items : list A) :
  (0 < perPage)%Z ->
  (1 <= currentPage)%Z ->
  ((currentPage <= totalPages perPage items)%Z ->
   (1 <= Z.of_nat (length (currentItems perPage currentPage items))
      <= perPage)%Z)
  /\ ((totalPages perPage items < currentPage)%Z ->
      currentItems perPage currentPage items = []).
Proof.
  intros Hpos Hpage.
  rewrite <- (Z2Nat.id perPage) by lia.
  set (k := Z.to_nat perPage). assert (Hk : 0 < k) by lia.
  destruct (totalPages_nat items Hk) as (n & -> & Hn1 & Hn2).
  replace currentPage with (Z.of_nat (Z.to_nat (currentPage - 1)) + 1)%Z by lia.
  set (i := Z.to_nat (currentPage - 1)).
  rewrite currentItems_nat. split; intros H.
  - rewrite length_firstn, length_skipn. nia.
  - rewrite skipn_all2; [apply firstn_nil|]. nia.
Qed.

Lemma page_items_bounds_witness :
  (1 <= Z.of_nat (length (currentItems itemsPerPage 3 (seq 1 12)))
     <= itemsPerPage)%Z
  /\ currentItems itemsPerPage 4 (seq 1 12) = [].
Proof.
  split.
  - apply (@page_items_bounds nat itemsPerPage 3 (seq 1 12));
      unfold itemsPerPage; try lia.
    vm_compute. discriminate.
  - apply (@page_items_bounds nat itemsPerPage 4 (seq 1 12));
      unfold itemsPerPage; try lia.
    vm_compute. reflexivity.
Defined.

End LearningPageFacts.

(** ** The text handed to the model *)

Module RoutesFacts.
Import JS JSFacts Routes.

Lemma substring_prefix (n : nat) (s : jsstring) :
  n <= length s -> substring 0 (Z.of_nat n) s = firstn n s.
Proof.
  intros H. unfold substring. cbv zeta.
  rewrite (Z.max_l 0 0) by lia.
  rewrite (Z.min_l 0) by lia.
  rewrite (Z.max_l (Z.of_nat n)) by lia.
  rewrite (Z.min_l (Z.of_nat n)) by lia.
  rewrite (Z.min_l 0) by lia. rewrite (Z.max_r 0) by lia.
  rewrite Z.sub_0_r, Nat2Z.id. reflexivity.
Qed.

(** The two cases of the truncation. *)
Lemma truncate_cases (notice text : jsstring) :
  ((Z.of_nat (length text) <= maxTextLength)%Z
   /\ truncate notice text = text)
  \/ ((maxTextLength < Z.of_nat (length text))%Z
      /\ truncate notice text
         = firstn (Z.to_nat maxTextLength) text ++ notice).
Proof.
  unfold truncate.
  destruct (Z.ltb_spec maxTextLength (Z.of_nat (length text))) as [Hlong | Hshort].
  - right. split; [assumption|].
    rewrite <- (Z2Nat.id maxTextLength) at 1 by (unfold maxTextLength; lia).
    rewrite substring_prefix; [reflexivity|]. unfold maxTextLength in *. lia.
  - left. split; [assumption | reflexivity].
Qed.

Lemma firstn_prefix_app {A : Type} (n : nat) (l notice : list A) :
  n <= length l -> firstn n (firstn n l ++ notice) = firstn n l.
Proof.
  intros H. rewrite firstn_app, length_firstn, Nat.min_l by assumption.
  rewrite Nat.sub_diag, firstn_firstn, Nat.min_id. cbn [firstn].
  apply app_nil_r.
Qed.

(** A text of at most [maxTextLength] code units is handed over as it is; a
    longer text is cut to its first [maxTextLength] code units, followed by
    the notice.  In both cases the first [maxTextLength] code units are
    those of the text and the result is no longer than [maxTextLength] code
    units plus the notice. *)
Theorem truncate_bounded (notice text : jsstring) :
  firstn (Z.to_nat maxTextLength) (truncate notice text)
  = firstn (Z.to_nat maxTextLength) text
  /\ (Z.of_nat (length (truncate notice text))
      <= maxTextLength + Z.of_nat (length notice))%Z
  /\ ((Z.of_nat (length text) <= maxTextLength)%Z ->
      truncate notice text = text)
  /\ ((maxTextLength < Z.of_nat (length text))%Z ->
      truncate notice text
      = firstn (Z.to_nat maxTextLength) text ++ notice).
Proof.
  assert (Hmax : (0 <= maxTextLength)%Z) by (unfold maxTextLength; lia).
  destruct (truncate_cases notice text) as [(H & ->) | (H & ->)].
  - split; [reflexivity|]. split; [lia|]. split; [reflexivity | lia].
  - split; [apply firstn_prefix_app; lia|].
    split; [rewrite length_app, length_firstn; lia|].
    split; [lia | reflexivity].
Qed.

(** Truncating a text that was already truncated, with the same notice,
    changes nothing. *)
Theorem truncate_idempotent (notice text : jsstring) :
  truncate notice (truncate notice text) = truncate notice text.
Proof.
  assert (Hmax : (0 <= maxTextLength)%Z) by (unfold maxTextLength; lia).
  destruct (truncate_cases notice text) as [(H & E) | (H & E)]; rewrite E.
  - exact E.
  - destruct (truncate_cases notice (firstn (Z.to_nat maxTextLength) text ++ notice))
      as [(H' & ->) | (H' & ->)]; [reflexivity|].
    rewrite firstn_prefix_app by lia. reflexivity.
Qed.

(** Joining the pieces of a string gives the string back. *)
Lemma join_split (sep : char) (s : jsstring) :
  join [sep] (split sep s) = s.
Proof.
  induction s as [|c s IH]; [reflexivity|].
  cbn [split]. destruct (N.eqb_spec c sep) as [-> | Hc].
  - pose proof (split_not_nil sep s) as Hne.
    destruct (split sep s) as [|piece rest]; [congruence|].
    change (join [sep] ([] :: piece :: rest))
      with (sep :: join [sep] (piece :: rest)).
    rewrite IH. reflexivity.
  - pose proof (split_not_nil sep s) as Hne.
    destruct (split sep s) as [|piece rest]; [congruence|].
    destruct rest as [|piece' rest].
    + cbn [join] in *. rewrite IH. reflexivity.
    + change (join [sep] ((c :: piece) :: piece' :: rest))
        with (c :: join [sep] (piece :: piece' :: rest)).
      rewrite IH. reflexivity.
Qed.

Lemma split_app (sep : char) (a b : jsstring) :
  split sep (a ++ sep :: b) = split sep a ++ split sep b.
Proof.
  induction a as [|c a IH]; cbn [app split].
  - rewrite N.eqb_refl. reflexivity.
  - destruct (c =? sep)%N.
    + rewrite IH. reflexivity.
    + rewrite IH. pose proof (split_not_nil sep a) as Hne.
      destruct (split sep a) as [|piece rest]; [congruence | reflexivity].
Qed.

Lemma slice_drop_last {A : Type} (l : list A) : slice 0 (-1) l = removelast l.
Proof.
  unfold slice. cbv zeta.
  destruct (Z.ltb_spec 0 0); [lia|].
  destruct (Z.ltb_spec (-1) 0); [|lia].
  rewrite (Z.min_l 0) by lia. cbn [Z.to_nat skipn].
  rewrite removelast_firstn_len. f_equal. lia.
Qed.

(** The main topic of the subtopic prompt is the file name without its
    last extension; a file name without a dot, or with nothing before its
    only dot, gives ["Document Content"]. *)
Theorem mainTopic_strips_extension (base ext : jsstring) :
  ~ In (code ".") ext ->
  mainTopic (base ++ code "." :: ext)
  = match base with
    | [] => lit "Document Content"
    | _ :: _ => base
    end
  /\ mainTopic ext = lit "Document Content".
Proof.
  intros Hext. unfold mainTopic. rewrite !slice_drop_last. split.
  - rewrite split_app, (@split_single _ _ Hext), removelast_last, join_split.
    destruct base; reflexivity.
  - rewrite (@split_single _ _ Hext). reflexivity.
Qed.

Lemma mainTopic_strips_extension_witness :
  mainTopic (lit "notes.v2" ++ code "." :: lit "pdf") = lit "notes.v2"
  /\ mainTopic (lit "pdf") = lit "Document Content".
Proof.
  apply (@mainTopic_strips_extension (lit "notes.v2") (lit "pdf")).
  vm_compute. intuition discriminate.
Defined.

End RoutesFacts.

(** ** The feature carousel *)

Module CarouselFacts.
Import JS FeatureCarousel.



Lemma mod_wrap (a n : nat) :
  a < 2 * n -> a mod n = if a <? n then a else a - n.
Proof.
  intros H. destruct (Nat.ltb_spec a n) as [Hlt | Hge].
  - apply Nat.mod_small. assumption.
  - symmetry. apply Nat.mod_unique with (q := 1); lia.
Qed.

Lemma at_nat {A : Type} (features : list A) (k : nat) :
  at_ features (Z.of_nat k) = nth_error features k.
Proof.
  unfold at_. destruct (Z.ltb_spec (Z.of_nat k) 0); [lia|].
  rewrite Nat2Z.id. reflexivity.
Qed.

Lemma displayed_positions {A : Type} (features : list A) (i : nat) :
  0 < length features ->
  getDisplayedFeatures features (Z.of_nat i)
  = [nth_error features (i mod length features);
     nth_error features ((i + 1) mod length features);
     nth_error features ((i + 2) mod length features)].
Proof.
  intros Hn. unfold getDisplayedFeatures, cardsPerPage. cbn [seq map].
  assert (E : forall j,
             Z.rem (Z.of_nat i + Z.of_nat j) (Z.of_nat (length features))
             = Z.of_nat ((i + j) mod length features)).
  { intros j. rewrite Z.rem_mod_nonneg by lia.
    rewrite Nat2Z.inj_mod. f_equal. lia. }
  rewrite !E, !at_nat, Nat.add_0_r. reflexivity.
Qed.

(** The three cards shown: each is a feature of the list, the first being
    the one at the current index; when the list has at least three
    features, all different, no card is shown twice. *)
Theorem displayed_features {A : Type} (features : list A) (i : nat) :
  i < length features ->
  (exists a b c,
      getDisplayedFeatures features (Z.of_nat i) = [Some a; Some b; Some c]
      /\ nth_error features i = Some a
      /\ In b features /\ In c features)
  /\ (3 <= length features -> NoDup features ->
      NoDup (getDisplayedFeatures features (Z.of_nat i))).
Proof.
  intros Hi. assert (Hn : 0 < length features) by lia.
  rewrite displayed_positions by assumption.
  set (n := length features) in *.
  rewrite (Nat.mod_small i n) by assumption.
  assert (H1 : (i + 1) mod n < n) by (apply Nat.mod_upper_bound; lia).
  assert (H2 : (i + 2) mod n < n) by (apply Nat.mod_upper_bound; lia).
  split.
  - destruct (nth_error features i) as [a|] eqn:Ea;
      [|apply nth_error_None in Ea; fold n in Ea; lia].
    destruct (nth_error features ((i + 1) mod n)) as [b|] eqn:Eb;
      [|apply nth_error_None in Eb; fold n in Eb; lia].
    destruct (nth_error features ((i + 2) mod n)) as [c|] eqn:Ec;
      [|apply nth_error_None in Ec; fold n in Ec; lia].
    exists a, b, c. repeat split; eauto using nth_error_In.
  - intros H3 Hnd.
    rewrite NoDup_nth_error in Hnd. fold n in Hnd.
    assert (D1 : (i + 1) mod n <> i).
    { destruct (Nat.eq_dec n 1); [lia|].
      rewrite mod_wrap by lia. destruct (Nat.ltb_spec (i + 1) n); lia. }
    assert (D2 : (i + 2) mod n <> i).
    { rewrite mod_wrap by lia. destruct (Nat.ltb_spec (i + 2) n); lia. }
    assert (D3 : (i + 2) mod n <> (i + 1) mod n).
    { rewrite !mod_wrap by lia.
      destruct (Nat.ltb_spec (i + 2) n); destruct (Nat.ltb_spec (i + 1) n); lia. }
    constructor.
    + intros [E | [E | []]].
      * symmetry in E. apply Hnd in E; [congruence | assumption].
      * symmetry in E. apply Hnd in E; [congruence | assumption].
    + constructor.
      * intros [E | []]. symmetry in E. apply Hnd in E; [congruence | assumption].
      * constructor; [intros [] | constructor].
Qed.

Lemma displayed_features_witness :
  NoDup (getDisplayedFeatures (seq 1 7) (Z.of_nat 6)).
Proof.
  apply (@displayed_features nat (seq 1 7) 6).
  - cbn [length seq]. lia.
  - cbn [length seq]. lia.
  - apply seq_NoDup.
Defined.

End CarouselFacts.

(** ** The lines shown in bold *)

Module RenderFacts.
Import JS Regex RegexFacts PatternFacts SubtopicDetailModal.

Lemma forallb_not_chr (c : char) (s : jsstring) :
  forallb (fun x => negb (x =? c)%N) s = true <-> ~ In c s.
Proof.
  rewrite forallb_forall. split.
  - intros H Hin. specialize (H _ Hin). rewrite N.eqb_refl in H. discriminate.
  - intros H x Hin. destruct (N.eqb_spec x c); [subst; tauto | reflexivity].
Qed.

Lemma boldLine_words (line : jsstring) :
  Matches boldLine line <->
  exists body,
    body <> [] /\ ~ In (code "*") body
    /\ line = code "*" :: code "*" :: body ++ [code "*"; code "*"].
Proof.
  unfold boldLine, notChr. split.
  - intros H.
    apply Matches_Seq_inv in H as (s1 & t1 & -> & H1 & H).
    apply Matches_Seq_inv in H as (s2 & t2 & -> & H2 & H).
    apply Matches_Seq_inv in H as (body & t3 & -> & H3 & H).
    apply Matches_Seq_inv in H as (s4 & s5 & -> & H4 & H5).
    apply Matches_chr in H1, H2, H4, H5. subst.
    apply Matches_plus_Class in H3 as [Hne H3].
    exists body. split; [assumption|]. split; [|reflexivity].
    apply forallb_not_chr. assumption.
  - intros (body & Hne & Hno & ->).
    change (code "*" :: code "*" :: body ++ [code "*"; code "*"])
      with ([code "*"] ++ [code "*"] ++ body ++ [code "*"] ++ [code "*"]).
    apply MSeq; [apply Matches_chr; reflexivity|].
    apply MSeq; [apply Matches_chr; reflexivity|].
    apply MSeq; [|apply MSeq; apply Matches_chr; reflexivity].
    apply Matches_plus_Class. split; [assumption|].
    apply forallb_not_chr. assumption.
Qed.

(** The rendering loop shows a line in bold exactly when the line is two
    asterisks, a text that is not empty and has no asterisk, and two
    asterisks. *)
Theorem bold_line_form (line : jsstring) :
  renderClass line = BoldEmphasis <->
  exists body,
    body <> [] /\ ~ In (code "*") body
    /\ line = code "*" :: code "*" :: body ++ [code "*"; code "*"].
Proof.
  rewrite <- boldLine_words, <- matchWhole_spec.
  unfold renderClass, isBold.
  destruct (matchWhole boldLine line); [tauto|].
  destruct (isBullet line); split; discriminate.
Qed.

(** A bold line without a line terminator also matches the list marker
    pattern, its first asterisk being read as a bullet: the page builder
    takes it for a heading, and the rendering loop shows it in bold only
    because the bold test is made first. *)
Theorem bold_line_is_marker_line (line : jsstring) :
  isBold line = true ->
  forallb (fun c => negb (isLineTerminator c)) line = true ->
  isBullet line = true /\ isHeading line = true.
Proof.
  intros Hbold Hterm.
  assert (Hb : isBullet line = true).
  { unfold isBold in Hbold.
    apply matchWhole_spec, boldLine_words in Hbold as (body & Hne & _ & ->).
    unfold isBullet. apply matchWhole_spec. unfold listMarker.
    cbn [forallb] in Hterm. apply andb_true_iff in Hterm as [_ Hterm].
    change (code "*" :: code "*" :: body ++ [code "*"; code "*"])
      with (([] ++ [code "*"]) ++ [] ++
            (code "*" :: body ++ [code "*"; code "*"])).
    apply MSeq; [|apply MSeq].
    - apply MAltL. apply MSeq; [apply MStarNil|]. constructor. reflexivity.
    - apply MStarNil.
    - apply Matches_plus_Class. split; [discriminate | exact Hterm]. }
  split; [exact Hb|]. unfold isHeading. unfold isBullet in Hb.
  rewrite Hb, orb_true_r. reflexivity.
Qed.

Lemma bold_line_is_marker_line_witness :
  isBullet (lit "**Important**") = true
  /\ isHeading (lit "**Important**") = true.
Proof.
  apply (@bold_line_is_marker_line (lit "**Important**"));
    vm_compute; reflexivity.
Defined.

End RenderFacts.
